(** * TermTunes: search, select and play

    A shallow embedding of [termtunes/cli.py] and the properties of its
    search providers, its selector, its session controller and its command
    surface.

    Python values are embedded as an inductive type of JSON-like values,
    functions that print, read standard input or call an external capability
    as state transformers over a [world] (pending input lines and the trace
    of observable events), and raised exceptions as the left injection of a
    sum.

    What the embedding takes from outside the program:
    - standard input is a finite list of lines, after which [input] raises
      [EOFError]; [print] always succeeds;
    - the catalog ([ytmusicapi]), [shutil.which] and [subprocess.run] are
      fields of an [environment]; a catalog reply is a list of dicts (or
      [None]) whose values are arbitrary;
    - an exception is an instance of [Exception]; an interrupt is modelled
      where the program handles it, while the player runs;
    - [str.strip], [int] on text and [repr] of containers are an interface
      ([Builtins]) with an instance for ASCII text;
    - [argparse] is not modelled: [main] starts from the parsed arguments. *)

From Stdlib Require Import ZArith List String Ascii Bool Lia.
From Stdlib Require Import Decimal DecimalString DecimalZ.
Import ListNotations.

Set Warnings "-register-all".

Open Scope string_scope.
Open Scope list_scope.
Open Scope Z_scope.

(** ** Python values *)

Module Py.

(** The values that flow through the program: what a decoded catalog reply
    is made of.  A [dict] keeps its entries as an association list with
    string keys; [get] returns the first entry of a key. *)
Inductive pyval : Type :=
| PNone
| PBool (b : bool)
| PInt (z : Z)
| PStr (s : string)
| PList (l : list pyval)
| PDict (d : list (string * pyval)).

Definition dict : Type := list (string * pyval).

(** [d.get(key)]: the value, or [None] when the key is absent. *)
Fixpoint get (d : dict) (key : string) : pyval :=
  match d with
  | [] => PNone
  | (k, v) :: d' => if String.eqb k key then v else get d' key
  end.

(** Truth value of a Python object, as [not x], [x or y], [x and y] and
    [if x] test it. *)
Definition truthy (v : pyval) : bool :=
  match v with
  | PNone => false
  | PBool b => b
  | PInt z => negb (z =? 0)
  | PStr s => negb (String.eqb s "")
  | PList l => match l with [] => false | _ => true end
  | PDict d => match d with [] => false | _ => true end
  end.

(** [x or y]. *)
Definition or_ (x y : pyval) : pyval := if truthy x then x else y.

(** Decimal text of an integer, as [str(n)] and an f-string field give it. *)
Definition str_of_Z (z : Z) : string := NilZero.string_of_int (Z.to_int z).

(** The line feed that ["\n"] denotes. *)
Definition nl : string := String (ascii_of_nat 10) "".

(** Exceptions.  Every exception of this type is an instance of
    [Exception]; [exc_msg] is what [str(e)] and an f-string field show. *)
Inductive exc_type : Type :=
| EOFError | ValueError | RuntimeError | TypeError | KeyError | IndexError
| OtherError (name : string).

Record exception : Type := Exc { exc_class : exc_type; exc_msg : string }.

(** The builtins whose text-level details the program does not depend on:
    [str.strip()], [int(text)] ([None] stands for the [ValueError] it
    raises) and [repr] of a container. *)
Class Builtins : Type := {
  strip : string -> string;
  int_ : string -> option Z;
  repr_container : pyval -> string;
  int_empty : int_ "" = None
}.

(** [str(v)], which is also how an f-string field formats [v]. *)
Definition str `{Builtins} (v : pyval) : string :=
  match v with
  | PNone => "None"
  | PBool true => "True"
  | PBool false => "False"
  | PInt z => str_of_Z z
  | PStr s => s
  | PList _ | PDict _ => repr_container v
  end.

(** [l[:n]]: the first [n] elements, or all but the last [-n] when [n] is
    negative. *)
Definition slice_to {A : Type} (l : list A) (n : Z) : list A :=
  if 0 <=? n then firstn (Z.to_nat n) l
  else firstn (Z.to_nat (Z.of_nat (List.length l) + n)) l.

(** [l[i]] with Python's negative indices; out of range is [IndexError]. *)
Definition index {A : Type} (l : list A) (i : Z) : exception + A :=
  let j := if i <? 0 then Z.of_nat (List.length l) + i else i in
  if j <? 0 then inl (Exc IndexError "list index out of range")
  else match nth_error l (Z.to_nat j) with
       | Some x => inr x
       | None => inl (Exc IndexError "list index out of range")
       end.

(** Name of a value's type, as error messages show it. *)
Definition type_name (v : pyval) : string :=
  match v with
  | PNone => "NoneType"
  | PBool _ => "bool"
  | PInt _ => "int"
  | PStr _ => "str"
  | PList _ => "list"
  | PDict _ => "dict"
  end.

(** [v[i]] for an integer [i]: an element of a list, a character of a
    string, [KeyError] on a dict (its keys are strings), [TypeError] on a
    value that is not subscriptable. *)
Definition getitem (v : pyval) (i : Z) : exception + pyval :=
  match v with
  | PList l => index l i
  | PStr s =>
      match index (list_ascii_of_string s) i with
      | inr c => inr (PStr (String c ""))
      | inl _ => inl (Exc IndexError "string index out of range")
      end
  | PDict _ => inl (Exc KeyError (str_of_Z i))
  | _ => inl (Exc TypeError ("'" ++ type_name v ++ "' object is not subscriptable"))
  end.

(** [range(n)]. *)
Definition range (n : Z) : list Z := map Z.of_nat (seq 0 (Z.to_nat n)).

End Py.
Import Py.

(** ** The world outside the program *)

(** What an observer of the process sees, in order. *)
Inductive event : Type :=
| Print (text : string)            (* print(text) *)
| Prompt (text : string)           (* input(text) shows its prompt *)
| CatalogOpen                      (* YTMusic() *)
| CatalogSearch (query filter : string)   (* ytm.search(query, filter=...) *)
| Which (name : string)            (* shutil.which(name) *)
| Run (argv : list string).        (* subprocess.run(argv, check=True) *)

(** How a launched process ends, seen from [subprocess.run]. *)
Inductive run_outcome : Type :=
| Exited (returncode : Z)
| Interrupted                      (* KeyboardInterrupt while waiting *)
| LaunchError (e : exception).     (* any other exception, e.g. OSError *)

(** A catalog client: [search(query, filter="songs")] raises or returns a
    list of items ([None] for a reply of [None]). *)
Definition catalog : Type := string -> exception + option (list dict).

(** The runtime environment: the binding of the module-level name
    [YTMusic] ([None] when the import failed; otherwise the constructor,
    which raises or gives a client), [shutil.which] and what running a
    command does. *)
Record environment : Type := {
  YTMusic : option (exception + catalog);
  which : string -> option string;
  run : list string -> run_outcome
}.

(** Pending lines of standard input and the events so far. *)
Record world : Type := World { stdin : list string; trace : list event }.

Definition emit (ev : event) (w : world) : world :=
  {| stdin := stdin w; trace := trace w ++ [ev] |}.

(** ** Computations that may raise *)

Definition M (A : Type) : Type := world -> (exception + A) * world.

Definition ret {A : Type} (a : A) : M A := fun w => (inr a, w).

Definition raise {A : Type} (e : exception) : M A := fun w => (inl e, w).

Definition bind {A B : Type} (m : M A) (k : A -> M B) : M B :=
  fun w => match m w with
           | (inr a, w') => k a w'
           | (inl e, w') => (inl e, w')
           end.

(** [try: m  except Exception as e: handler e]. *)
Definition try_except {A : Type} (m : M A) (handler : exception -> M A) : M A :=
  fun w => match m w with
           | (inl e, w') => handler e w'
           | r => r
           end.

Definition exc_type_eqb (a b : exc_type) : bool :=
  match a, b with
  | EOFError, EOFError | ValueError, ValueError | RuntimeError, RuntimeError
  | TypeError, TypeError | KeyError, KeyError | IndexError, IndexError => true
  | OtherError n, OtherError m => String.eqb n m
  | _, _ => false
  end.

(** [try: m  except ty: handler]: other exceptions pass through. *)
Definition try_except_only {A : Type} (ty : exc_type) (m : M A) (handler : M A) : M A :=
  fun w => match m w with
           | (inl e, w') =>
               if exc_type_eqb (exc_class e) ty then handler w' else (inl e, w')
           | r => r
           end.

Definition lift {A : Type} (r : exception + A) : M A :=
  match r with inl e => raise e | inr a => ret a end.

Declare Scope py_scope.
Delimit Scope py_scope with py.
Notation "x <- m ;; k" := (bind m (fun x => k))
  (at level 61, m at next level, right associativity) : py_scope.
Notation "m ;; k" := (bind m (fun _ => k))
  (at level 61, right associativity) : py_scope.
Open Scope py_scope.

(** [print(text)]. *)
Definition print (text : string) : M unit := fun w => (inr tt, emit (Print text) w).

(** [input(prompt)]: the next line, or [EOFError] at end of input. *)
Definition input (prompt : string) : M string :=
  fun w => match stdin w with
           | [] => (inl (Exc EOFError "EOF when reading a line"), emit (Prompt prompt) w)
           | line :: rest =>
               (inr line, {| stdin := rest; trace := trace w ++ [Prompt prompt] |})
           end.

(** ** Track descriptors *)

(** A song is the dict [{"title": ..., "artist": ..., "url": ...}]. *)
Record song : Type := Song { title : pyval; artist : pyval; url : string }.

(** ** The program *)

Section Program.

Context `{Builtins}.

(** *** Search providers *)

(** The body of the loop of [search_with_ytmusic] for one item: the song to
    append, or [None] where the loop [continue]s. *)
Definition song_of_item (item : dict) : M (option song) :=
  let title := or_ (get item "title") (PStr "Unknown Title") in
  let artists := or_ (get item "artists") (PList []) in
  artist <-
    (if truthy artists then
       first <- lift (getitem artists 0) ;;
       match first with
       | PDict d =>                      (* isinstance(artists[0], dict) *)
           if truthy (get d "name") then ret (get d "name")
           else ret (PStr "Unknown Artist")
       | _ => ret (PStr "Unknown Artist")
       end
     else ret (PStr "Unknown Artist")) ;;
  let video_id := get item "videoId" in
  if negb (truthy video_id) then ret None
  else
    let url := ("https://www.youtube.com/watch?v=" ++ str video_id)%string in
    ret (Some {| title := title; artist := artist; url := url |}).

(** [for item in items: ...] with [songs] as accumulated so far. *)
Fixpoint collect_songs (items : list dict) (songs : list song) : M (list song) :=
  match items with
  | [] => ret songs
  | item :: rest =>
      r <- song_of_item item ;;
      match r with
      | None => collect_songs rest songs
      | Some s => collect_songs rest (songs ++ [s])
      end
  end.

(** [YTMusic()] *)
Definition new_client (cls : exception + catalog) : M catalog :=
  fun w => lift cls (emit CatalogOpen w).

(** [ytm.search(query, filter="songs")] *)
Definition client_search (ytm : catalog) (query : string) : M (option (list dict)) :=
  fun w => lift (ytm query) (emit (CatalogSearch query "songs") w).

Definition search_with_ytmusic (env : environment) (query : string) (limit : Z)
  : M (list song) :=
  match YTMusic env with
  | None => raise (Exc RuntimeError "ytmusicapi not installed. Run: pip install ytmusicapi")
  | Some cls =>
      ytm <- new_client cls ;;
      reply <- client_search ytm query ;;
      let results := match reply with
                     | Some (item :: more) => item :: more
                     | _ => []
                     end in
      collect_songs (slice_to results limit) []
  end.

Definition search_with_mock (query : string) (limit : Z) : list song :=
  map (fun i =>
         {| title := PStr (query ++ " (Mock " ++ str_of_Z (i + 1) ++ ")");
            artist := PStr ("Mock Artist " ++ str_of_Z (i + 1));
            url := "https://www.youtube.com/watch?v=mock" ++ str_of_Z (i + 1) |})
      (range limit).

(** *** Selector *)

(** The numbered lines [for i, s in enumerate(songs, start=1): print(...)]. *)
Fixpoint listing (songs : list song) (i : Z) : list event :=
  match songs with
  | [] => []
  | s :: rest =>
      Print (str_of_Z i ++ ". " ++ str (title s) ++ " - " ++ str (artist s))
      :: listing rest (i + 1)
  end.

Definition print_listing (songs : list song) : M unit :=
  fun w => (inr tt, {| stdin := stdin w; trace := trace w ++ listing songs 1 |}).

Definition select_prompt : string := "Enter number (or blank to cancel): ".

(** The [while True] loop of [choose_song], by recursion on the lines yet to
    be read: the choice, the lines left and the events of the loop. *)
Fixpoint choose_loop (songs : list song) (pending : list string)
  : option Z * list string * list event :=
  match pending with
  | [] => (None, [], [Prompt select_prompt])              (* EOFError *)
  | line :: rest =>
      let choice := strip line in
      if String.eqb choice "" then (None, rest, [Prompt select_prompt])
      else
        match int_ choice with
        | Some value =>
            let idx := value - 1 in
            if (0 <=? idx) && (idx <? Z.of_nat (List.length songs))
            then (Some idx, rest, [Prompt select_prompt])
            else
              let '(r, rest', evs) := choose_loop songs rest in
              (r, rest', Prompt select_prompt :: Print "Invalid choice. Try again." :: evs)
        | None =>                                        (* ValueError *)
            let '(r, rest', evs) := choose_loop songs rest in
            (r, rest', Prompt select_prompt :: Print "Please enter a valid number." :: evs)
        end
  end.

Definition choose_song (songs : list song) (auto : bool) : M (option Z) :=
  match songs with
  | [] => ret None
  | _ =>
      if auto then ret (Some 0)
      else
        print (nl ++ "Select a song:") ;;
        print_listing songs ;;
        fun w =>
          let '(r, rest, evs) := choose_loop songs (stdin w) in
          (inr r, {| stdin := rest; trace := trace w ++ evs |})
  end.

(** *** Player invoker *)

Definition shutil_which (env : environment) (name : string) : M (option string) :=
  fun w => (inr (which env name), emit (Which name) w).

Definition subprocess_run (env : environment) (argv : list string) : M run_outcome :=
  fun w => (inr (run env argv), emit (Run argv) w).

Definition play_with_mpv (env : environment) (url : string) : M unit :=
  path <- shutil_which env "mpv" ;;
  match path with
  | None | Some "" =>
      raise (Exc RuntimeError "mpv not found. Please install it to play songs.")
  | Some _ =>
      outcome <- subprocess_run env ["mpv"; "--no-video"; url] ;;
      match outcome with
      | Exited returncode =>
          if returncode =? 0 then ret tt
          else                                     (* CalledProcessError *)
            print ("mpv exited with error code " ++ str_of_Z returncode)
      | Interrupted => print (nl ++ "Stopped by user.")
      | LaunchError e => raise e
      end
  end.

(** *** Session controller *)

(** The provider call inside the [try] of [search_and_play]. *)
Definition provider (env : environment) (use_mock : bool) (query : string) (limit : Z)
  : M (list song) :=
  if use_mock then ret (search_with_mock query limit)
  else search_with_ytmusic env query limit.

Definition search_and_play (env : environment) (query : string) (limit : Z)
    (use_mock auto no_play : bool) : M (option song) :=
  if String.eqb (strip query) "" then
    print "Empty query." ;; ret None
  else
    found <- try_except
               (songs <- provider env use_mock query limit ;; ret (Some songs))
               (fun e => print ("Error while searching: " ++ exc_msg e) ;; ret None) ;;
    match found with
    | None => ret None
    | Some [] => print "No results found." ;; ret None
    | Some songs =>
        print (nl ++ "Top Results:") ;;
        print_listing songs ;;
        idx <- choose_song songs auto ;;
        match idx with
        | None => print "No song selected." ;; ret None
        | Some idx =>
            selected <- lift (index songs idx) ;;
            print (nl ++ "🎵 Selected: " ++ str (title selected) ++ " - "
                      ++ str (artist selected)) ;;
            print ("🔗 URL: " ++ url selected ++ nl) ;;
            if no_play then
              print "--no-play enabled, not launching mpv." ;; ret (Some selected)
            else
              try_except (play_with_mpv env (url selected))
                         (fun e => print ("Failed to play: " ++ exc_msg e)) ;;
              ret (Some selected)
        end
    end.

(** *** Command surface *)

(** What [parser.parse_args(argv)] gives for an argument vector it accepts
    ([--limit] is then one of [limit_choices]); one it rejects ends the
    process inside [parse_args]. *)
Record Namespace : Type := {
  arg_query : option string;
  arg_mock : bool;
  arg_limit : Z;
  arg_auto : bool;
  arg_no_play : bool
}.

Definition limit_choices : list Z := [1; 3; 5; 7; 10].

Definition query_prompt : string := "Search for a song (or blank to quit): ".

(** [main] from the parsed arguments on: the exit status it returns. *)
Definition main (env : environment) (args : Namespace) : M Z :=
  query <-
    match arg_query args with
    | Some (String c q) => ret (Some (String c q))       (* if args.query *)
    | _ =>
        answer <- try_except_only EOFError
                    (line <- input query_prompt ;; ret (Some (strip line)))
                    (ret None) ;;
        match answer with
        | None => ret None                               (* except EOFError: return 0 *)
        | Some query =>
            if String.eqb query "" then ret None         (* if not query: return 0 *)
            else ret (Some query)
        end
    end ;;
  match query with
  | None => ret 0
  | Some query =>
      search_and_play env query (arg_limit args) (arg_mock args) (arg_auto args)
                      (arg_no_play args) ;;
      ret 0
  end.

End Program.

(** ** The builtins on ASCII text

    An instance of [Builtins] for text made of ASCII characters and integer
    literals below the interpreter's digit limit; the examples run on it. *)

Module Text.

Definition code (c : ascii) : Z := Z.of_nat (nat_of_ascii c).

(** Characters that [str.strip()] removes. *)
Definition is_space (c : ascii) : bool :=
  let n := code c in
  ((9 <=? n) && (n <=? 13)) || ((28 <=? n) && (n <=? 32)).

Definition is_digit (c : ascii) : bool :=
  let n := code c in (48 <=? n) && (n <=? 57).

Fixpoint lstrip (s : string) : string :=
  match s with
  | String c s' => if is_space c then lstrip s' else s
  | EmptyString => EmptyString
  end.

Fixpoint rstrip (s : string) : string :=
  match s with
  | String c s' =>
      match rstrip s' with
      | EmptyString => if is_space c then EmptyString else String c EmptyString
      | r => String c r
      end
  | EmptyString => EmptyString
  end.

Definition strip (s : string) : string := rstrip (lstrip s).

(** Digits of a decimal literal, single underscores allowed between digits;
    [after_digit] tells whether the previous character was a digit. *)
Fixpoint digits (s : string) (acc : Z) (after_digit : bool) : option Z :=
  match s with
  | EmptyString => if after_digit then Some acc else None
  | String c s' =>
      if is_digit c then digits s' (10 * acc + (code c - 48)) true
      else if Ascii.eqb c "_" && after_digit then digits s' acc false
      else None
  end.

(** [int(s)]: surrounding whitespace is ignored; then an optional sign and
    the digits. *)
Definition int_ (s : string) : option Z :=
  match strip s with
  | String "-" s' => option_map Z.opp (digits s' 0 false)
  | String "+" s' => digits s' 0 false
  | s' => digits s' 0 false
  end.

Fixpoint contains (c : ascii) (s : string) : bool :=
  match s with
  | EmptyString => false
  | String c' s' => Ascii.eqb c c' || contains c s'
  end.

Definition hex_digit (n : Z) : ascii :=
  ascii_of_nat (Z.to_nat (if n <? 10 then 48 + n else 87 + n)).

Fixpoint escape (quote : ascii) (s : string) : string :=
  match s with
  | EmptyString => EmptyString
  | String c s' =>
      let n := code c in
      (if Ascii.eqb c quote || Ascii.eqb c "\" then String "\" (String c EmptyString)
       else if n =? 9 then "\t"
       else if n =? 10 then "\n"
       else if n =? 13 then "\r"
       else if (n <? 32) || (n =? 127) then
         String "\" (String "x" (String (hex_digit (n / 16))
                                   (String (hex_digit (n mod 16)) EmptyString)))
       else String c EmptyString) ++ escape quote s'
  end.

Definition dquote : ascii := ascii_of_nat 34.

(** [repr] of a string. *)
Definition repr_str (s : string) : string :=
  let quote : ascii :=
    if contains "'" s && negb (contains dquote s) then dquote else "'"%char in
  String quote (escape quote s ++ String quote EmptyString).

Definition join (sep : string) (parts : list string) : string :=
  match parts with
  | [] => EmptyString
  | p :: ps => fold_left (fun acc q => (acc ++ sep ++ q)%string) ps p
  end.

Fixpoint repr (v : pyval) : string :=
  match v with
  | PNone => "None"
  | PBool true => "True"
  | PBool false => "False"
  | PInt z => str_of_Z z
  | PStr s => repr_str s
  | PList l => ("[" ++ join ", " (map repr l) ++ "]")%string
  | PDict d =>
      ("{" ++ join ", " (map (fun kv => (repr_str (fst kv) ++ ": " ++ repr (snd kv))%string) d)
           ++ "}")%string
  end.

#[export] Instance builtins : Builtins :=
  {| Py.strip := strip; Py.int_ := int_; Py.repr_container := repr;
     Py.int_empty := eq_refl |}.

End Text.

(** ** Vocabulary of the statements *)

(** The descriptor that [search_with_mock] gives for the number [i]. *)
Definition mock_song (query : string) (i : Z) : song :=
  {| title := PStr (query ++ " (Mock " ++ str_of_Z i ++ ")");
     artist := PStr ("Mock Artist " ++ str_of_Z i);
     url := "https://www.youtube.com/watch?v=mock" ++ str_of_Z i |}.

Section Vocabulary.

Context `{Builtins}.

(** A blank answer: nothing is left of the line once stripped. *)
Definition blank (line : string) : Prop := strip line = "".

(** The line parses as the integer [value], and [value] is one of the
    numbers 1 .. length shown to the user. *)
Definition selects (songs : list song) (line : string) (value : Z) : Prop :=
  int_ (strip line) = Some value /\ 1 <= value <= Z.of_nat (List.length songs).

(** The line is not blank and does not parse as an integer. *)
Definition non_numeric (line : string) : Prop :=
  strip line <> "" /\ int_ (strip line) = None.

(** The line parses as an integer outside 1 .. length. *)
Definition out_of_range (songs : list song) (line : string) : Prop :=
  exists value, int_ (strip line) = Some value /\
                ~ (1 <= value <= Z.of_nat (List.length songs)).

Definition rejected (songs : list song) (line : string) : Prop :=
  non_numeric line \/ out_of_range songs line.

(** What the selector prints for a rejected line. *)
Definition rejection (line : string) : string :=
  match int_ (strip line) with
  | Some _ => "Invalid choice. Try again."
  | None => "Please enter a valid number."
  end.

(** The events of the rounds that rejected lines take: each is prompted
    for and answered with its rejection. *)
Definition retries (lines : list string) : list event :=
  flat_map (fun line => [Prompt select_prompt; Print (rejection line)]) lines.

(** The events before the first prompt of an interactive selection. *)
Definition selection_menu (songs : list song) : list event :=
  Print (nl ++ "Select a song:") :: listing songs 1.

(** The item carries a unique identifier. *)
Definition has_id (item : dict) : bool := truthy (get item "videoId").

(** The name of the first listed artist, or the placeholder. *)
Definition item_artist (item : dict) : pyval :=
  match get item "artists" with
  | PList (PDict first :: _) => or_ (get first "name") (PStr "Unknown Artist")
  | _ => PStr "Unknown Artist"
  end.

(** The descriptor of a catalog item. *)
Definition descriptor (item : dict) : song :=
  {| title := or_ (get item "title") (PStr "Unknown Title");
     artist := item_artist item;
     url := "https://www.youtube.com/watch?v=" ++ str (get item "videoId") |}.

(** The artists entry of an item is absent or a list, as the catalog
    returns it. *)
Definition artists_listed (item : dict) : Prop :=
  get item "artists" = PNone \/ exists l, get item "artists" = PList l.

(** The items of a reply. *)
Definition reply_items (reply : option (list dict)) : list dict :=
  match reply with Some items => items | None => [] end.

(** The items the live provider looks at: the first [limit] of the reply. *)
Definition considered (limit : Z) (reply : option (list dict)) : list dict :=
  firstn (Z.to_nat limit) (reply_items reply).

(** The world once the results are rendered. *)
Definition rendered (songs : list song) (w : world) : world :=
  {| stdin := stdin w;
     trace := trace w ++ Print (nl ++ "Top Results:") :: listing songs 1 |}.

(** The world once the chosen descriptor is reported. *)
Definition announced (selected : song) (w : world) : world :=
  emit (Print ("🔗 URL: " ++ url selected ++ nl))
       (emit (Print (nl ++ "🎵 Selected: " ++ str (title selected) ++ " - "
                        ++ str (artist selected))) w).

(** Events of the player invoker. *)
Definition player_event (ev : event) : bool :=
  match ev with Which _ | Run _ => true | _ => false end.

(** Events of the live provider. *)
Definition catalog_event (ev : event) : bool :=
  match ev with CatalogOpen | CatalogSearch _ _ => true | _ => false end.

End Vocabulary.

(** ** Scenarios *)

(** An environment with neither catalog nor player. *)
Definition offline : environment :=
  {| YTMusic := None; which := fun _ => None; run := fun _ => Exited 0 |}.

(** A reply of three items: the first has no identifier, the third neither
    title nor artist. *)
Definition three_items : list dict :=
  [ [("title", PStr "A"); ("artists", PList [PDict [("name", PStr "X")]])];
    [("title", PStr "B"); ("artists", PList [PDict [("name", PStr "Y")]]);
     ("videoId", PStr "b")];
    [("artists", PList []); ("videoId", PStr "c")] ].

Definition three_item_catalog : catalog := fun _ => inr (Some three_items).

(** An environment with that catalog and a player that exits with 0. *)
Definition online : environment :=
  {| YTMusic := Some (inr three_item_catalog);
     which := fun _ => Some "/usr/bin/mpv";
     run := fun _ => Exited 0 |}.

(** A world with the given lines pending and nothing observed yet. *)
Definition fresh (lines : list string) : world := {| stdin := lines; trace := [] |}.

(** ** Vocabulary of the further properties *)

(** Events of standard input. *)
Definition prompt_event (ev : event) : bool :=
  match ev with Prompt _ => true | _ => false end.

(** [shutil.which("mpv")] gave a path. *)
Definition player_found (env : environment) : bool :=
  match which env "mpv" with Some (String _ _) => true | _ => false end.

(** The command line of the player for a locator. *)
Definition mpv_command (target : string) : list string := ["mpv"; "--no-video"; target].

(** The events a session may add, by its query and flags: prints always;
    catalog events only without [use_mock], the search with the session's
    query and the filter ["songs"]; the selector's prompt only without
    [auto]; player events only without [no_play], a run only of
    [mpv --no-video <one argument>]. *)
Definition allowed (query : string) (use_mock auto no_play : bool) (ev : event) : bool :=
  match ev with
  | Print _ => true
  | Prompt text => negb auto && String.eqb text select_prompt
  | CatalogOpen => negb use_mock
  | CatalogSearch q f => negb use_mock && String.eqb q query && String.eqb f "songs"
  | Which name => negb no_play && String.eqb name "mpv"
  | Run argv =>
      negb no_play &&
      match argv with
      | [program; flag; _] => String.eqb program "mpv" && String.eqb flag "--no-video"
      | _ => false
      end
  end.

(** The trace of [w'] is the trace of [w] followed by events of the class
    [f]. *)
Definition grows_by (f : event -> bool) (w w' : world) : Prop :=
  exists evs, trace w' = trace w ++ evs /\ forallb f evs = true.

(** A descriptor that can be shown and played: its title and artist are
    not empty, and its locator is the URL template filled with something
    that is not empty. *)
Definition presentable `{Builtins} (s : song) : Prop :=
  truthy (title s) = true /\ truthy (artist s) = true /\
  exists id, truthy id = true /\
             url s = ("https://www.youtube.com/watch?v=" ++ str id)%string.

(** An environment whose catalog answers every search with [None]. *)
Definition unanswered : environment :=
  {| YTMusic := Some (inr (fun _ => inr None));
     which := fun _ => Some "/usr/bin/mpv";
     run := fun _ => Exited 0 |}.

(** The artists entry of an item can be read by the provider: it is falsy,
    or a list or a string, whose first element [artists[0]] exists. *)
Definition artists_usable (item : dict) : bool :=
  match get item "artists" with
  | PInt z => z =? 0
  | PBool b => negb b
  | PDict (_ :: _) => false
  | _ => true
  end.

(** The exception that [artists[0]] raises for an item whose artists entry
    cannot be read. *)
Definition artists_error (item : dict) : exception :=
  match getitem (get item "artists") 0 with
  | inl e => e
  | inr _ => Exc TypeError ""
  end.

(** The first item whose artists entry cannot be read. *)
Definition first_unusable (items : list dict) : option dict :=
  find (fun item => negb (artists_usable item)) items.

(** The number that the decimal digits [u] denote after the digits already
    read as [acc]. *)
Fixpoint uint_value (u : Decimal.uint) (acc : Z) : Z :=
  match u with
  | Decimal.Nil => acc
  | Decimal.D0 l => uint_value l (10 * acc + 0)
  | Decimal.D1 l => uint_value l (10 * acc + 1)
  | Decimal.D2 l => uint_value l (10 * acc + 2)
  | Decimal.D3 l => uint_value l (10 * acc + 3)
  | Decimal.D4 l => uint_value l (10 * acc + 4)
  | Decimal.D5 l => uint_value l (10 * acc + 5)
  | Decimal.D6 l => uint_value l (10 * acc + 6)
  | Decimal.D7 l => uint_value l (10 * acc + 7)
  | Decimal.D8 l => uint_value l (10 * acc + 8)
  | Decimal.D9 l => uint_value l (10 * acc + 9)
  end.

(** A reply whose second item has a number where its artists should be. *)
Definition unreadable_items : list dict :=
  [ [("title", PStr "A"); ("videoId", PStr "a")];
    [("title", PStr "B"); ("artists", PInt 5)] ].

(** An environment whose catalog gives that reply. *)
Definition unreadable : environment :=
  {| YTMusic := Some (inr (fun _ => inr (Some unreadable_items)));
     which := fun _ => Some "/usr/bin/mpv";
     run := fun _ => Exited 0 |}.

(** A reply whose only item has a number where its artists should be. *)
Definition numbered_items : list dict :=
  [ [("title", PStr "B"); ("artists", PInt 5); ("videoId", PStr "b")] ].

Definition numbered_catalog : catalog := fun _ => inr (Some numbered_items).

(** An environment whose catalog gives that reply. *)
Definition numbered : environment :=
  {| YTMusic := Some (inr numbered_catalog);
     which := fun _ => Some "/usr/bin/mpv";
     run := fun _ => Exited 0 |}.

(** A reply of three items: the first has no identifier, the second has a
    string where its list of artists should be. *)
Definition loose_items : list dict :=
  [ [("title", PStr "A"); ("artists", PList [PDict [("name", PStr "X")]])];
    [("title", PStr "Hello"); ("artists", PStr "Adele"); ("videoId", PStr "h")];
    [("title", PStr "B"); ("artists", PList [PDict [("name", PStr "Y")]]);
     ("videoId", PStr "b")] ].

Definition loose_catalog : catalog := fun _ => inr (Some loose_items).

(** An environment whose catalog gives that reply. *)
Definition loose : environment :=
  {| YTMusic := Some (inr loose_catalog);
     which := fun _ => Some "/usr/bin/mpv";
     run := fun _ => Exited 0 |}.

(** ** Properties *)

(** *** Decimal text and lists *)

Lemma str_of_Z_inj (a b : Z) : str_of_Z a = str_of_Z b -> a = b.
Proof.
  unfold str_of_Z. intros E. apply DecimalZ.to_int_inj.
  assert (R : forall z, NilZero.int_of_string (NilZero.string_of_int (Z.to_int z))
                        = Some (Z.to_int z)).
  { intros z. apply NilZero.isi; destruct z; simpl; try discriminate;
      intros [= E']; exact (DecimalPos.Unsigned.to_uint_nonnil _ E'). }
  pose proof (R a) as Ra. rewrite E, R in Ra. now injection Ra.
Qed.

Lemma append_inj_l (p a b : string) : (p ++ a = p ++ b)%string -> a = b.
Proof.
  induction p as [|c p IH]; simpl; [trivial|]. intros [= E]. auto.
Qed.

Lemma NoDup_map_injective {A B : Type} (f : A -> B) (l : list A) :
  (forall x y, f x = f y -> x = y) -> NoDup l -> NoDup (map f l).
Proof.
  intros Hf Hl. induction Hl as [|x l Hx Hl IH]; simpl; constructor; [|exact IH].
  intros Hin. apply in_map_iff in Hin as (y & Ey & Hy).
  apply Hf in Ey. subst y. contradiction.
Qed.

Lemma range_length (n : Z) : 0 <= n -> Z.of_nat (List.length (range n)) = n.
Proof.
  intros Hn. unfold range. rewrite length_map, length_seq. lia.
Qed.

Lemma range_nth (n i : Z) :
  0 <= i < n -> nth_error (range n) (Z.to_nat i) = Some i.
Proof.
  intros Hi. unfold range. rewrite nth_error_map, nth_error_seq.
  destruct (Nat.ltb_spec (Z.to_nat i) (Z.to_nat n)) as [_|Hge]; [|lia].
  simpl. f_equal. lia.
Qed.

Lemma range_NoDup (n : Z) : NoDup (range n).
Proof.
  unfold range. apply NoDup_map_injective; [|apply seq_NoDup].
  intros x y. apply Nat2Z.inj.
Qed.

Lemma index_in_range {A : Type} (l : list A) (i : Z) :
  0 <= i < Z.of_nat (List.length l) ->
  exists x, index l i = inr x /\ nth_error l (Z.to_nat i) = Some x.
Proof.
  intros Hi. unfold index.
  assert (E0 : (i <? 0) = false) by (apply Z.ltb_ge; lia).
  rewrite !E0.
  destruct (nth_error l (Z.to_nat i)) as [x|] eqn:E.
  - exists x. split; reflexivity.
  - apply nth_error_None in E. lia.
Qed.

(** *** The deterministic provider *)

Lemma search_with_mock_map (query : string) (limit : Z) :
  search_with_mock query limit = map (fun i => mock_song query (i + 1)) (range limit).
Proof. reflexivity. Qed.

Lemma search_with_mock_length (query : string) (limit : Z) :
  0 <= limit -> Z.of_nat (List.length (search_with_mock query limit)) = limit.
Proof.
  intros Hl. rewrite search_with_mock_map, length_map. now apply range_length.
Qed.

Lemma search_with_mock_nth (query : string) (limit i : Z) :
  1 <= i <= limit ->
  nth_error (search_with_mock query limit) (Z.to_nat (i - 1)) = Some (mock_song query i).
Proof.
  intros Hi. rewrite search_with_mock_map, nth_error_map, range_nth by lia.
  simpl. do 2 f_equal. lia.
Qed.

Lemma search_with_mock_urls_NoDup (query : string) (limit : Z) :
  NoDup (map url (search_with_mock query limit)).
Proof.
  rewrite search_with_mock_map, map_map.
  apply NoDup_map_injective; [|apply range_NoDup].
  intros x y E. cbn [url mock_song] in E.
  apply append_inj_l, str_of_Z_inj in E. lia.
Qed.

(** C5.  For every query and every limit [L] among 1, 3, 5, 7 and 10,
    [search_with_mock query L] has exactly [L] descriptors; the [i]-th one
    (for [i] from 1 to [L]) has the title ["{query} (Mock {i})"], the artist
    ["Mock Artist {i}"] and the locator of the fixed template with [i] in
    it; and the [L] locators are pairwise distinct. *)
Theorem search_with_mock_descriptors (query : string) (L : Z) :
  In L limit_choices ->
  Z.of_nat (List.length (search_with_mock query L)) = L /\
  (forall i, 1 <= i <= L ->
     nth_error (search_with_mock query L) (Z.to_nat (i - 1))
     = Some {| title := PStr (query ++ " (Mock " ++ str_of_Z i ++ ")");
               artist := PStr ("Mock Artist " ++ str_of_Z i);
               url := "https://www.youtube.com/watch?v=mock" ++ str_of_Z i |}) /\
  NoDup (map url (search_with_mock query L)).
Proof.
  intros HL.
  assert (0 <= L) by (unfold limit_choices in HL; simpl in HL; lia).
  split; [now apply search_with_mock_length|].
  split; [intros i Hi; now apply search_with_mock_nth|].
  apply search_with_mock_urls_NoDup.
Qed.

Lemma search_with_mock_descriptors_witness :
  In 3 limit_choices /\
  Z.of_nat (List.length (search_with_mock "abc" 3)) = 3 /\
  nth_error (search_with_mock "abc" 3) 1
  = Some {| title := PStr "abc (Mock 2)"; artist := PStr "Mock Artist 2";
            url := "https://www.youtube.com/watch?v=mock2" |} /\
  NoDup (map url (search_with_mock "abc" 3)).
Proof.
  assert (H3 : In 3 limit_choices) by (simpl; auto).
  destruct (search_with_mock_descriptors "abc" 3 H3) as (Hlen & Hnth & Hnd).
  split; [exact H3|]. split; [exact Hlen|]. split; [|exact Hnd].
  exact (Hnth 2 ltac:(lia)).
Defined.

(** *** The selector *)

Section Selector.

Context `{Builtins}.

Lemma selects_not_blank (songs : list song) (line : string) (value : Z) :
  selects songs line value -> strip line <> "".
Proof.
  intros [E _] B. rewrite B, int_empty in E. discriminate.
Qed.

Lemma choose_loop_picks (songs : list song) (line : string) (rest : list string) (value : Z) :
  selects songs line value ->
  choose_loop songs (line :: rest) = (Some (value - 1), rest, [Prompt select_prompt]).
Proof.
  intros S. pose proof (selects_not_blank _ _ _ S) as NB. destruct S as [E R].
  simpl. apply String.eqb_neq in NB. rewrite NB, E.
  replace ((0 <=? value - 1) && (value - 1 <? Z.of_nat (List.length songs))) with true
    by (symmetry; apply andb_true_iff; split; [apply Z.leb_le|apply Z.ltb_lt]; lia).
  reflexivity.
Qed.

Lemma choose_loop_blank (songs : list song) (line : string) (rest : list string) :
  blank line -> choose_loop songs (line :: rest) = (None, rest, [Prompt select_prompt]).
Proof.
  unfold blank. intros B. simpl. rewrite B. reflexivity.
Qed.

Lemma choose_loop_rejects (songs : list song) (line : string) (rest : list string) :
  rejected songs line ->
  choose_loop songs (line :: rest)
  = let '(r, rest', evs) := choose_loop songs rest in
    (r, rest', Prompt select_prompt :: Print (rejection line) :: evs).
Proof.
  unfold rejection. intros [[NB E]|(value & E & R)]; simpl.
  - apply String.eqb_neq in NB. rewrite NB, E. reflexivity.
  - assert (NB : strip line <> "") by (intros B; rewrite B, int_empty in E; discriminate).
    apply String.eqb_neq in NB. rewrite NB, E.
    replace ((0 <=? value - 1) && (value - 1 <? Z.of_nat (List.length songs))) with false.
    + reflexivity.
    + symmetry. apply andb_false_iff.
      destruct (Z.leb_spec 0 (value - 1)); [right|left; reflexivity].
      apply Z.ltb_ge. lia.
Qed.

Lemma choose_loop_retries (songs : list song) (pre rest : list string) :
  Forall (rejected songs) pre ->
  choose_loop songs (pre ++ rest)
  = let '(r, rest', evs) := choose_loop songs rest in (r, rest', retries pre ++ evs).
Proof.
  induction 1 as [|line pre Hline Hpre IH].
  - simpl. now destruct (choose_loop songs rest) as [[r rest'] evs].
  - rewrite <- app_comm_cons, choose_loop_rejects, IH by assumption.
    now destruct (choose_loop songs rest) as [[r rest'] evs].
Qed.

Lemma choose_loop_range (songs : list song) (pending : list string) (idx : Z) :
  fst (fst (choose_loop songs pending)) = Some idx ->
  0 <= idx < Z.of_nat (List.length songs).
Proof.
  induction pending as [|line rest IH]; simpl; [discriminate|].
  destruct (String.eqb (strip line) ""); [discriminate|].
  destruct (int_ (strip line)) as [value|].
  - destruct (Z.leb_spec 0 (value - 1)); simpl;
      [destruct (Z.ltb_spec (value - 1) (Z.of_nat (List.length songs))); simpl|].
    + intros [= <-]. lia.
    + destruct (choose_loop songs rest) as [[r rest'] evs]. exact IH.
    + destruct (choose_loop songs rest) as [[r rest'] evs]. exact IH.
  - destruct (choose_loop songs rest) as [[r rest'] evs]. exact IH.
Qed.

(** [choose_song] on a non-empty sequence without [auto]: the menu, then
    the loop. *)
Lemma choose_song_interactive_eq (songs : list song) (w : world) :
  songs <> [] ->
  choose_song songs false w
  = let '(r, rest, evs) := choose_loop songs (stdin w) in
    (inr r, {| stdin := rest; trace := trace w ++ selection_menu songs ++ evs |}).
Proof.
  intros NE. destruct songs as [|s songs]; [contradiction|].
  unfold choose_song, bind, print, print_listing, emit, selection_menu.
  cbn [stdin trace].
  destruct (choose_loop (s :: songs) (stdin w)) as [[r rest] evs].
  now rewrite <- !app_assoc.
Qed.

Lemma line_cases (songs : list song) (line : string) :
  blank line \/ (exists value, selects songs line value) \/ rejected songs line.
Proof.
  unfold blank, selects, rejected, non_numeric, out_of_range.
  destruct (String.eqb_spec (strip line) "") as [B|NB]; [now left|right].
  destruct (int_ (strip line)) as [value|]; [|now right; left].
  destruct (Z_le_dec 1 value) as [L|L];
    [destruct (Z_le_dec value (Z.of_nat (List.length songs))) as [U|U]|].
  - left. exists value. split; [reflexivity|lia].
  - right. right. exists value. split; [reflexivity|lia].
  - right. right. exists value. split; [reflexivity|lia].
Qed.

(** Every input is a run of rejected lines, ended by a line that selects,
    by a blank line or by the end of the input. *)
Lemma input_cases (songs : list song) (lines : list string) :
  Forall (rejected songs) lines \/
  exists pre line rest,
    lines = pre ++ line :: rest /\ Forall (rejected songs) pre /\
    (blank line \/ exists value, selects songs line value).
Proof.
  induction lines as [|line lines IH]; [left; constructor|].
  destruct (line_cases songs line) as [B|[S|R]].
  - right. exists [], line, lines. repeat split; auto.
  - right. exists [], line, lines. repeat split; auto.
  - destruct IH as [All|(pre & l & rest & -> & Hpre & Hl)].
    + left. now constructor.
    + right. exists (line :: pre), l, rest. repeat split; auto.
Qed.

(** [choose_song] never raises, and an index it returns lies within the
    sequence. *)
Lemma choose_song_range (songs : list song) (auto : bool) (w : world) :
  exists r w', choose_song songs auto w = (inr r, w') /\
               forall idx, r = Some idx -> 0 <= idx < Z.of_nat (List.length songs).
Proof.
  destruct songs as [|s songs].
  - exists None, w. split; [reflexivity|discriminate].
  - destruct auto.
    + exists (Some 0), w. split; [reflexivity|].
      intros idx [= <-]. simpl. lia.
    + rewrite choose_song_interactive_eq by discriminate.
      pose proof (choose_loop_range (s :: songs) (stdin w)) as R.
      destruct (choose_loop (s :: songs) (stdin w)) as [[r rest] evs].
      eexists _, _. split; [reflexivity|].
      intros idx ->. now apply R.
Qed.

(** C1.  On a non-empty sequence and without [auto], whatever lines are
    pending: when every line before [line] is rejected (it is non-numeric or
    out of range) and [line] parses as an integer [value] with
    [1 <= value <= length], the selector returns [value - 1]; when the line
    reached after the rejected ones is blank, or the input ends there, it
    returns no selection.  In each case the lines up to the deciding one are
    consumed, and every rejected line has been answered with its rejection
    and followed by a new prompt.  Every input falls under one of the three
    cases. *)
Theorem choose_song_interactive (songs : list song) (w : world) :
  songs <> [] ->
  (forall pre line rest value,
      stdin w = pre ++ line :: rest ->
      Forall (rejected songs) pre -> selects songs line value ->
      choose_song songs false w
      = (inr (Some (value - 1)),
         {| stdin := rest;
            trace := trace w ++ selection_menu songs ++ retries pre
                             ++ [Prompt select_prompt] |})) /\
  (forall pre line rest,
      stdin w = pre ++ line :: rest ->
      Forall (rejected songs) pre -> blank line ->
      choose_song songs false w
      = (inr None,
         {| stdin := rest;
            trace := trace w ++ selection_menu songs ++ retries pre
                             ++ [Prompt select_prompt] |})) /\
  (Forall (rejected songs) (stdin w) ->
   choose_song songs false w
   = (inr None,
      {| stdin := [];
         trace := trace w ++ selection_menu songs ++ retries (stdin w)
                          ++ [Prompt select_prompt] |})) /\
  (Forall (rejected songs) (stdin w) \/
   exists pre line rest,
     stdin w = pre ++ line :: rest /\ Forall (rejected songs) pre /\
     (blank line \/ exists value, selects songs line value)).
Proof.
  intros NE. split; [|split; [|split]]; [| | |apply input_cases].
  - intros pre line rest value E Hpre S.
    rewrite choose_song_interactive_eq, E, choose_loop_retries by assumption.
    now rewrite (choose_loop_picks _ _ _ _ S).
  - intros pre line rest E Hpre B.
    rewrite choose_song_interactive_eq, E, choose_loop_retries by assumption.
    now rewrite (choose_loop_blank _ _ _ B).
  - intros Hall.
    rewrite choose_song_interactive_eq by assumption.
    rewrite <- (app_nil_r (stdin w)) at 1.
    now rewrite choose_loop_retries by assumption.
Qed.

(** C8.  On a non-empty sequence, [choose_song] with [auto] returns index 0
    whatever the sequence holds, and leaves the world as it was: no line is
    read and nothing is printed. *)
Theorem choose_song_auto (songs : list song) (w : world) :
  songs <> [] -> choose_song songs true w = (inr (Some 0), w).
Proof.
  intros NE. destruct songs; [contradiction|reflexivity].
Qed.

(** C10.  On the empty sequence [choose_song] returns no selection and
    leaves the world as it was, with [auto] as without: the selector guards
    the empty case itself. *)
Theorem choose_song_empty (auto : bool) (w : world) :
  choose_song [] auto w = (inr None, w) /\
  stdin (snd (choose_song [] auto w)) = stdin w /\
  trace (snd (choose_song [] auto w)) = trace w.
Proof.
  unfold choose_song, ret. cbn [snd]. repeat split.
Qed.

End Selector.

(** *** The session controller *)

Section Session.

Context `{Builtins}.

(** [search_and_play], branch by branch. *)
Lemma search_and_play_eq (env : environment) (query : string) (limit : Z)
    (use_mock auto no_play : bool) (w : world) :
  search_and_play env query limit use_mock auto no_play w
  = if String.eqb (strip query) "" then (inr None, emit (Print "Empty query.") w)
    else
      match provider env use_mock query limit w with
      | (inl e, w1) => (inr None, emit (Print ("Error while searching: " ++ exc_msg e)) w1)
      | (inr [], w1) => (inr None, emit (Print "No results found.") w1)
      | (inr songs, w1) =>
          match choose_song songs auto (rendered songs w1) with
          | (inl e, w2) => (inl e, w2)
          | (inr None, w2) => (inr None, emit (Print "No song selected.") w2)
          | (inr (Some idx), w2) =>
              match index songs idx with
              | inl e => (inl e, w2)
              | inr selected =>
                  let w3 := announced selected w2 in
                  if no_play then
                    (inr (Some selected),
                     emit (Print "--no-play enabled, not launching mpv.") w3)
                  else
                    match play_with_mpv env (url selected) w3 with
                    | (inr _, w4) => (inr (Some selected), w4)
                    | (inl e, w4) =>
                        (inr (Some selected),
                         emit (Print ("Failed to play: " ++ exc_msg e)) w4)
                    end
              end
          end
      end.
Proof.
  unfold search_and_play.
  destruct (String.eqb (strip query) ""); [reflexivity|].
  unfold bind at 1. unfold try_except. unfold bind at 1.
  destruct (provider env use_mock query limit w) as [[e|songs] w1]; [reflexivity|].
  unfold ret at 1.
  destruct songs as [|s songs]; [reflexivity|].
  set (all := s :: songs).
  unfold bind at 1. unfold print at 1. unfold bind at 1. unfold print_listing at 1.
  unfold bind at 1.
  change {| stdin := stdin (emit (Print (nl ++ "Top Results:")) w1);
            trace := trace (emit (Print (nl ++ "Top Results:")) w1) ++ listing all 1 |}
    with {| stdin := stdin w1;
            trace := (trace w1 ++ [Print (nl ++ "Top Results:")]) ++ listing all 1 |}.
  replace {| stdin := stdin w1;
             trace := (trace w1 ++ [Print (nl ++ "Top Results:")]) ++ listing all 1 |}
    with (rendered all w1) by (unfold rendered; now rewrite <- app_assoc).
  destruct (choose_song all auto (rendered all w1)) as [[e|[idx|]] w2];
    [reflexivity| |reflexivity].
  unfold bind at 1. unfold lift.
  destruct (index all idx) as [e|selected]; [reflexivity|].
  unfold ret at 1. unfold bind at 1. unfold print at 1. unfold bind at 1. unfold print at 1.
  fold (announced selected w2).
  destruct no_play; [reflexivity|].
  unfold bind at 1. unfold try_except.
  destruct (play_with_mpv env (url selected) (announced selected w2)) as [[e|[]] w4];
    reflexivity.
Qed.

Lemma provider_unavailable (env : environment) (query : string) (limit : Z) (w : world) :
  YTMusic env = None ->
  search_with_ytmusic env query limit w
  = (inl (Exc RuntimeError "ytmusicapi not installed. Run: pip install ytmusicapi"), w).
Proof.
  intros E. unfold search_with_ytmusic. now rewrite E.
Qed.

(** An event outside a class leaves the events of the class as they were. *)
Lemma filter_emit (f : event -> bool) (ev : event) (w : world) :
  f ev = false -> filter f (trace (emit ev w)) = filter f (trace w).
Proof.
  intros E. unfold emit. cbn [trace]. rewrite filter_app. simpl.
  rewrite E. apply app_nil_r.
Qed.

(** C7.  A query that is empty once stripped makes [search_and_play] print
    the empty-query message and return no selection; nothing else happens
    to the world, whichever provider is configured, so no search call is
    made. *)
Theorem empty_query_rejected (env : environment) (query : string) (limit : Z)
    (use_mock auto no_play : bool) (w : world) :
  strip query = "" ->
  search_and_play env query limit use_mock auto no_play w
  = (inr None, emit (Print "Empty query.") w) /\
  filter catalog_event (trace (snd (search_and_play env query limit use_mock auto no_play w)))
  = filter catalog_event (trace w).
Proof.
  intros E.
  assert (R : search_and_play env query limit use_mock auto no_play w
              = (inr None, emit (Print "Empty query.") w)).
  { rewrite search_and_play_eq, E. reflexivity. }
  split; [exact R|]. rewrite R. now apply filter_emit.
Qed.

(** C4.  Whatever exception the configured provider raises in the search
    step, [search_and_play] catches it, prints
    ["Error while searching: {details}"] and returns no selection.  When the
    catalog capability is absent, [search_with_ytmusic] raises its
    [RuntimeError] with the world untouched (no catalog call is made), and
    the session reports it the same way. *)
Theorem search_failure_reported (env : environment) (query : string) (limit : Z)
    (use_mock auto no_play : bool) (w : world) :
  strip query <> "" ->
  (forall e w1,
      provider env use_mock query limit w = (inl e, w1) ->
      search_and_play env query limit use_mock auto no_play w
      = (inr None, emit (Print ("Error while searching: " ++ exc_msg e)) w1)) /\
  (YTMusic env = None ->
   search_with_ytmusic env query limit w
   = (inl (Exc RuntimeError "ytmusicapi not installed. Run: pip install ytmusicapi"), w) /\
   search_and_play env query limit false auto no_play w
   = (inr None,
      emit (Print "Error while searching: ytmusicapi not installed. Run: pip install ytmusicapi")
           w)).
Proof.
  intros NE. apply String.eqb_neq in NE. split.
  - intros e w1 E. rewrite search_and_play_eq, NE, E. reflexivity.
  - intros E. split; [now apply provider_unavailable|].
    rewrite search_and_play_eq, NE. unfold provider.
    rewrite provider_unavailable by assumption. reflexivity.
Qed.

Lemma player_unavailable (env : environment) (target : string) (w : world) :
  which env "mpv" = None ->
  play_with_mpv env target w
  = (inl (Exc RuntimeError "mpv not found. Please install it to play songs."),
     emit (Which "mpv") w).
Proof.
  intros E. unfold play_with_mpv, bind, shutil_which. now rewrite E.
Qed.

Lemma player_events_listing (songs : list song) (i : Z) :
  filter player_event (listing songs i) = [].
Proof.
  revert i. induction songs as [|s songs IH]; intros i; simpl; [reflexivity|apply IH].
Qed.

Lemma player_events_rendered (songs : list song) (w : world) :
  filter player_event (trace (rendered songs w)) = filter player_event (trace w).
Proof.
  unfold rendered. cbn [trace]. rewrite filter_app. cbn [filter player_event].
  rewrite player_events_listing. apply app_nil_r.
Qed.

Lemma player_events_announced (selected : song) (w : world) :
  filter player_event (trace (announced selected w)) = filter player_event (trace w).
Proof.
  unfold announced. now rewrite !filter_emit.
Qed.

Lemma player_events_choose_loop (songs : list song) (pending : list string) :
  filter player_event (snd (choose_loop songs pending)) = [].
Proof.
  induction pending as [|line rest IH]; simpl; [reflexivity|].
  destruct (String.eqb (strip line) ""); [reflexivity|].
  destruct (int_ (strip line)) as [value|].
  - destruct ((0 <=? value - 1) && (value - 1 <? Z.of_nat (List.length songs)));
      [reflexivity|].
    destruct (choose_loop songs rest) as [[r rest'] evs]. exact IH.
  - destruct (choose_loop songs rest) as [[r rest'] evs]. exact IH.
Qed.

Lemma player_events_choose_song (songs : list song) (auto : bool) (w : world) :
  filter player_event (trace (snd (choose_song songs auto w)))
  = filter player_event (trace w).
Proof.
  destruct songs as [|s songs]; [reflexivity|].
  destruct auto; [reflexivity|].
  rewrite choose_song_interactive_eq by discriminate.
  pose proof (player_events_choose_loop (s :: songs) (stdin w)) as L.
  destruct (choose_loop (s :: songs) (stdin w)) as [[r rest] evs].
  cbn [snd trace] in *. unfold selection_menu.
  rewrite !filter_app. cbn [filter player_event].
  now rewrite player_events_listing, L, app_nil_r.
Qed.

Lemma song_of_item_pure (item : dict) (w : world) : snd (song_of_item item w) = w.
Proof.
  unfold song_of_item, bind, lift, ret, raise.
  destruct (truthy (or_ (get item "artists") (PList []))).
  - destruct (getitem (or_ (get item "artists") (PList [])) 0) as [e|first];
      [reflexivity|].
    destruct first as [| | | | |d]; try (now destruct (negb (truthy (get item "videoId")))).
    destruct (truthy (get d "name")); now destruct (negb (truthy (get item "videoId"))).
  - now destruct (negb (truthy (get item "videoId"))).
Qed.

Lemma collect_songs_pure (items : list dict) (songs : list song) (w : world) :
  snd (collect_songs items songs w) = w.
Proof.
  revert songs. induction items as [|item items IH]; intros songs; [reflexivity|].
  cbn [collect_songs]. unfold bind.
  pose proof (song_of_item_pure item w) as P.
  destruct (song_of_item item w) as [[e|[s|]] w']; cbn [snd] in P; subst w';
    [reflexivity|apply IH|apply IH].
Qed.

Lemma player_events_provider (env : environment) (use_mock : bool) (query : string)
    (limit : Z) (w : world) :
  filter player_event (trace (snd (provider env use_mock query limit w)))
  = filter player_event (trace w).
Proof.
  unfold provider. destruct use_mock; [reflexivity|].
  unfold search_with_ytmusic. destruct (YTMusic env) as [cls|]; [|reflexivity].
  unfold bind at 1. unfold new_client.
  destruct cls as [e|ytm]; cbn [lift raise ret snd];
    [now apply filter_emit|].
  unfold bind at 1. unfold client_search.
  destruct (ytm query) as [e|reply]; cbn [lift raise ret snd];
    [now rewrite !filter_emit|].
  rewrite collect_songs_pure. now rewrite !filter_emit.
Qed.

(** With [no_play] the session adds no event of the player invoker. *)
Lemma no_play_no_player_event (env : environment) (query : string) (limit : Z)
    (use_mock auto : bool) (w : world) :
  filter player_event (trace (snd (search_and_play env query limit use_mock auto true w)))
  = filter player_event (trace w).
Proof.
  rewrite search_and_play_eq.
  destruct (String.eqb (strip query) ""); [cbn [snd]; now apply filter_emit|].
  pose proof (player_events_provider env use_mock query limit w) as P.
  destruct (provider env use_mock query limit w) as [[e|songs] w1]; cbn [snd] in P |- *;
    [now rewrite filter_emit|].
  destruct songs as [|s songs]; [cbn [snd]; now rewrite filter_emit|].
  set (all := s :: songs).
  pose proof (player_events_choose_song all auto (rendered all w1)) as C.
  rewrite player_events_rendered in C.
  destruct (choose_song all auto (rendered all w1)) as [[e|[idx|]] w2];
    cbn [snd] in C |- *;
    [congruence| |rewrite filter_emit by reflexivity; congruence].
  destruct (index all idx) as [e|selected]; cbn [snd]; [congruence|].
  rewrite filter_emit, player_events_announced by reflexivity. congruence.
Qed.

(** C6.  Once a track is selected (the provider returned [songs], and the
    selector, run after the results are rendered, returned [idx]), the
    session returns the descriptor at [idx] whatever the playback phase
    does.  With [no_play] only the skip message follows the report of the
    selection, and the whole session adds no event of the player invoker.  Otherwise the player runs;
    an exception it raises is caught and printed as
    ["Failed to play: {details}"], and an undiscoverable player binary is
    such an exception. *)
Theorem selected_returned_whatever_playback (env : environment) (query : string)
    (limit : Z) (use_mock auto no_play : bool) (w w1 w2 : world)
    (songs : list song) (idx : Z) :
  strip query <> "" ->
  provider env use_mock query limit w = (inr songs, w1) ->
  choose_song songs auto (rendered songs w1) = (inr (Some idx), w2) ->
  exists selected,
    index songs idx = inr selected /\
    fst (search_and_play env query limit use_mock auto no_play w) = inr (Some selected) /\
    (no_play = true ->
     search_and_play env query limit use_mock auto no_play w
     = (inr (Some selected),
        emit (Print "--no-play enabled, not launching mpv.") (announced selected w2)) /\
     filter player_event
            (trace (snd (search_and_play env query limit use_mock auto no_play w)))
     = filter player_event (trace w)) /\
    (no_play = false ->
     forall r w4,
       play_with_mpv env (url selected) (announced selected w2) = (r, w4) ->
       search_and_play env query limit use_mock auto no_play w
       = (inr (Some selected),
          match r with
          | inr _ => w4
          | inl e => emit (Print ("Failed to play: " ++ exc_msg e)) w4
          end)) /\
    (which env "mpv" = None ->
     play_with_mpv env (url selected) (announced selected w2)
     = (inl (Exc RuntimeError "mpv not found. Please install it to play songs."),
        emit (Which "mpv") (announced selected w2))).
Proof.
  intros NE Hp Hc. apply String.eqb_neq in NE.
  destruct (choose_song_range songs auto (rendered songs w1)) as (r & w2' & E & R).
  rewrite Hc in E. injection E as <- <-.
  destruct (index_in_range songs idx (R idx eq_refl)) as (selected & Hi & _).
  exists selected.
  assert (S : songs <> []).
  { intros ->. unfold choose_song, ret in Hc. discriminate. }
  pose proof (search_and_play_eq env query limit use_mock auto no_play w) as Q.
  rewrite NE, Hp in Q. destruct songs as [|s songs]; [contradiction|].
  rewrite Hc, Hi in Q. cbv zeta in Q.
  split; [exact Hi|]. split; [|split; [|split]].
  - rewrite Q. destruct no_play; [reflexivity|].
    now destruct (play_with_mpv env (url selected) (announced selected w2)) as [[e|u] w4].
  - intros ->. split; [exact Q|apply no_play_no_player_event].
  - intros -> r w4 Hplay. rewrite Q, Hplay. now destruct r.
  - apply player_unavailable.
Qed.

(** [search_and_play] never raises, and what it returns was found by the
    provider. *)
(** Closes a branch in which the session returns no selection. *)
Ltac ends_without_selection := eexists _, _; split; [reflexivity|discriminate].

Lemma search_and_play_returns (env : environment) (query : string) (limit : Z)
    (use_mock auto no_play : bool) (w : world) :
  exists r w', search_and_play env query limit use_mock auto no_play w = (inr r, w') /\
    forall selected, r = Some selected ->
      exists songs w1, provider env use_mock query limit w = (inr songs, w1) /\
                       In selected songs.
Proof.
  rewrite search_and_play_eq.
  destruct (String.eqb (strip query) ""); [ends_without_selection|].
  destruct (provider env use_mock query limit w) as [[e|songs] w1];
    [ends_without_selection|].
  destruct songs as [|s songs]; [ends_without_selection|].
  set (all := s :: songs).
  destruct (choose_song_range all auto (rendered all w1)) as (r & w2 & E & R).
  rewrite E. destruct r as [idx|]; [|ends_without_selection].
  destruct (index_in_range all idx (R idx eq_refl)) as (selected & Hi & Hn).
  rewrite Hi. cbv zeta.
  assert (Hin : forall x, Some selected = Some x -> exists songs0 w0,
                 (@inr exception _ all, w1) = (inr songs0, w0) /\ In x songs0).
  { intros x [= <-]. exists all, w1. split; [reflexivity|].
    now apply nth_error_In with (n := Z.to_nat idx). }
  destruct no_play; [eexists _, _; split; [reflexivity|exact Hin]|].
  destruct (play_with_mpv env (url selected) (announced selected w2)) as [[e|u] w4];
    eexists _, _; (split; [reflexivity|exact Hin]).
Qed.

(** C9.  [choose_song] never raises and returns no selection or an index
    [idx] with [0 <= idx < length]; the lookup at such an index succeeds.
    Consequently [search_and_play] never raises, and a descriptor it returns
    is an element of the sequence the provider returned. *)
Theorem choose_song_in_bounds (env : environment) (query : string) (limit : Z)
    (use_mock no_play : bool) :
  (forall songs auto w,
      exists r w', choose_song songs auto w = (inr r, w') /\
        forall idx, r = Some idx ->
          0 <= idx < Z.of_nat (List.length songs) /\
          exists selected, index songs idx = inr selected /\
                           nth_error songs (Z.to_nat idx) = Some selected) /\
  (forall auto w,
      exists r w', search_and_play env query limit use_mock auto no_play w = (inr r, w') /\
        forall selected, r = Some selected ->
          exists songs w1, provider env use_mock query limit w = (inr songs, w1) /\
                           In selected songs).
Proof.
  split.
  - intros songs auto w.
    destruct (choose_song_range songs auto w) as (r & w' & E & R).
    exists r, w'. split; [exact E|]. intros idx ->.
    split; [now apply R|]. apply index_in_range. now apply R.
  - intros auto w. apply search_and_play_returns.
Qed.

End Session.

(** *** The command surface *)

Section Command.

Context `{Builtins}.

Lemma main_with_query (env : environment) (args : Namespace) (w : world)
    (c : ascii) (q : string) :
  arg_query args = Some (String c q) ->
  main env args w
  = (inr 0, snd (search_and_play env (String c q) (arg_limit args) (arg_mock args)
                                 (arg_auto args) (arg_no_play args) w)).
Proof.
  intros E. unfold main. rewrite E. unfold bind at 1. unfold ret at 1.
  unfold bind at 1.
  destruct (search_and_play_returns env (String c q) (arg_limit args) (arg_mock args)
              (arg_auto args) (arg_no_play args) w) as (r & w' & R & _).
  rewrite R. reflexivity.
Qed.

(** [main] when [args.query] is falsy: the prompt, then the answer decides. *)
Lemma main_prompted (env : environment) (args : Namespace) (w : world) :
  arg_query args = None \/ arg_query args = Some "" ->
  main env args w
  = match stdin w with
    | [] => (inr 0, emit (Prompt query_prompt) w)
    | line :: rest =>
        let w' := {| stdin := rest; trace := trace w ++ [Prompt query_prompt] |} in
        if String.eqb (strip line) "" then (inr 0, w')
        else (inr 0, snd (search_and_play env (strip line) (arg_limit args) (arg_mock args)
                                          (arg_auto args) (arg_no_play args) w'))
    end.
Proof.
  intros E. unfold main.
  assert (Q : forall k : option string -> M Z,
             (x <- match arg_query args with
                   | Some (String c q) => ret (Some (String c q))
                   | _ =>
                       answer <- try_except_only EOFError
                                   (line <- input query_prompt ;; ret (Some (strip line)))
                                   (ret None) ;;
                       match answer with
                       | None => ret None
                       | Some query =>
                           if String.eqb query "" then ret None else ret (Some query)
                       end
                   end ;; k x)
             = (x <- (answer <- try_except_only EOFError
                                  (line <- input query_prompt ;; ret (Some (strip line)))
                                  (ret None) ;;
                      match answer with
                      | None => ret None
                      | Some query =>
                          if String.eqb query "" then ret None else ret (Some query)
                      end) ;; k x)).
  { intros k. destruct E as [E|E]; rewrite E; reflexivity. }
  rewrite Q. clear Q.
  unfold bind at 1. unfold bind at 1. unfold try_except_only. unfold bind at 1.
  unfold input. destruct (stdin w) as [|line rest]; [reflexivity|].
  unfold ret at 1. cbv zeta.
  destruct (String.eqb (strip line) ""); [reflexivity|].
  unfold ret at 1. unfold bind at 1.
  destruct (search_and_play_returns env (strip line) (arg_limit args) (arg_mock args)
              (arg_auto args) (arg_no_play args)
              {| stdin := rest; trace := trace w ++ [Prompt query_prompt] |})
    as (r & w' & R & _).
  rewrite R. reflexivity.
Qed.

(** C3.  Whatever the parsed arguments, the environment and the input,
    [main] returns the exit status 0.  With a positional query (a non-empty
    one: [if args.query] reads an empty one as none) the session runs on it,
    and the status is 0 however the session ends.  Without one the query is
    prompted for: at end of input or on a blank answer [main] returns 0 with
    the prompt as its only event, so no session runs and no search is made;
    on any other answer the session runs on the stripped answer. *)
Theorem main_exit_status (env : environment) (args : Namespace) (w : world) :
  fst (main env args w) = inr 0 /\
  (forall c q,
      arg_query args = Some (String c q) ->
      main env args w
      = (inr 0, snd (search_and_play env (String c q) (arg_limit args) (arg_mock args)
                                     (arg_auto args) (arg_no_play args) w))) /\
  (arg_query args = None \/ arg_query args = Some "" ->
   (stdin w = [] -> main env args w = (inr 0, emit (Prompt query_prompt) w)) /\
   (forall line rest,
       stdin w = line :: rest -> strip line = "" ->
       main env args w
       = (inr 0, {| stdin := rest; trace := trace w ++ [Prompt query_prompt] |})) /\
   (forall line rest,
       stdin w = line :: rest -> strip line <> "" ->
       main env args w
       = (inr 0,
          snd (search_and_play env (strip line) (arg_limit args) (arg_mock args)
                               (arg_auto args) (arg_no_play args)
                               {| stdin := rest;
                                  trace := trace w ++ [Prompt query_prompt] |})))).
Proof.
  split; [|split].
  - destruct (arg_query args) as [[|c q]|] eqn:E.
    + rewrite main_prompted by auto.
      destruct (stdin w) as [|line rest]; [reflexivity|]. cbv zeta.
      now destruct (String.eqb (strip line) "").
    + now rewrite (main_with_query env args w c q E).
    + rewrite main_prompted by auto.
      destruct (stdin w) as [|line rest]; [reflexivity|]. cbv zeta.
      now destruct (String.eqb (strip line) "").
  - intros c q E. now apply main_with_query.
  - intros E. rewrite (main_prompted env args w E). repeat split.
    + now intros ->.
    + intros line rest -> B. cbv zeta. now rewrite B.
    + intros line rest -> NB. cbv zeta. apply String.eqb_neq in NB. now rewrite NB.
Qed.

End Command.

(** *** The live provider *)

Section Live.

Context `{Builtins}.

Lemma song_of_item_listed (item : dict) (w : world) :
  artists_listed item ->
  song_of_item item w
  = (inr (if has_id item then Some (descriptor item) else None), w).
Proof.
  unfold song_of_item, has_id, descriptor, item_artist, or_.
  intros [E|[l E]]; rewrite E.
  - cbn. unfold bind, ret. now destruct (truthy (get item "videoId")).
  - destruct l as [|first more].
    + cbn. unfold bind, ret. now destruct (truthy (get item "videoId")).
    + destruct first as [| | | | |d]; cbn; unfold bind, ret; cbn;
        try (now destruct (truthy (get item "videoId"))).
      destruct (truthy (get d "name")); now destruct (truthy (get item "videoId")).
Qed.

Lemma collect_songs_listed (items : list dict) (songs : list song) (w : world) :
  Forall artists_listed items ->
  collect_songs items songs w = (inr (songs ++ map descriptor (filter has_id items)), w).
Proof.
  intros Hall. revert songs.
  induction Hall as [|item items Hitem Hitems IH]; intros songs.
  - simpl. now rewrite app_nil_r.
  - cbn [collect_songs filter]. unfold bind at 1.
    rewrite song_of_item_listed by assumption.
    destruct (has_id item).
    + rewrite IH. cbn [map]. now rewrite <- app_assoc.
    + now rewrite IH.
Qed.

Lemma filter_length_le {A : Type} (f : A -> bool) (l : list A) :
  (List.length (filter f l) <= List.length l)%nat.
Proof.
  induction l as [|x l IH]; simpl; [lia|]. destruct (f x); simpl; lia.
Qed.

Lemma filter_length_split {A : Type} (f : A -> bool) (l : list A) :
  (List.length (filter f l) + List.length (filter (fun x => negb (f x)) l)
   = List.length l)%nat.
Proof.
  induction l as [|x l IH]; simpl; [reflexivity|]. destruct (f x); simpl; lia.
Qed.

End Live.

(** *** The theorems at concrete inputs *)

Lemma choose_song_interactive_witness :
  search_with_mock "abc" 3 <> [] /\
  @choose_song Text.builtins (search_with_mock "abc" 3) false (fresh ["x"; "7"; " 2 "; "1"])
  = (inr (Some 1),
     {| stdin := ["1"];
        trace := [Print (nl ++ "Select a song:");
                  Print "1. abc (Mock 1) - Mock Artist 1";
                  Print "2. abc (Mock 2) - Mock Artist 2";
                  Print "3. abc (Mock 3) - Mock Artist 3";
                  Prompt select_prompt; Print "Please enter a valid number.";
                  Prompt select_prompt; Print "Invalid choice. Try again.";
                  Prompt select_prompt] |}).
Proof.
  assert (NE : search_with_mock "abc" 3 <> []) by discriminate.
  split; [exact NE|].
  destruct (@choose_song_interactive Text.builtins (search_with_mock "abc" 3)
              (fresh ["x"; "7"; " 2 "; "1"]) NE) as (Pick & _).
  refine (Pick ["x"; "7"] " 2 " ["1"] 2 eq_refl _ _).
  - constructor; [|constructor; [|constructor]].
    + left. split; [discriminate|reflexivity].
    + right. exists 7. split; [reflexivity|simpl; lia].
  - split; [reflexivity|simpl; lia].
Defined.

Lemma choose_song_auto_witness :
  search_with_mock "test" 5 <> [] /\
  @choose_song Text.builtins (search_with_mock "test" 5) true (fresh ["3"])
  = (inr (Some 0), fresh ["3"]).
Proof.
  assert (NE : search_with_mock "test" 5 <> []) by discriminate.
  split; [exact NE|].
  exact (@choose_song_auto Text.builtins (search_with_mock "test" 5) (fresh ["3"]) NE).
Defined.

Lemma empty_query_rejected_witness :
  Text.strip "   " = "" /\
  @search_and_play Text.builtins online "   " 5 false false false (fresh ["1"])
  = (inr None, {| stdin := ["1"]; trace := [Print "Empty query."] |}).
Proof.
  split; [reflexivity|].
  exact (proj1 (@empty_query_rejected Text.builtins online "   " 5 false false false
                  (fresh ["1"]) eq_refl)).
Defined.

Lemma search_failure_reported_witness :
  Text.strip "faded" <> "" /\
  YTMusic offline = None /\
  @search_and_play Text.builtins offline "faded" 5 false false false (fresh ["1"])
  = (inr None,
     {| stdin := ["1"];
        trace := [Print "Error while searching: ytmusicapi not installed. Run: pip install ytmusicapi"] |}).
Proof.
  assert (NE : Text.strip "faded" <> "") by discriminate.
  split; [exact NE|]. split; [reflexivity|].
  destruct (@search_failure_reported Text.builtins offline "faded" 5 false false false
              (fresh ["1"]) NE) as (_ & Absent).
  exact (proj2 (Absent eq_refl)).
Defined.

Lemma selected_returned_whatever_playback_witness :
  Text.strip "abc" <> "" /\
  exists selected,
    index (search_with_mock "abc" 3) 1 = inr selected /\
    fst (@search_and_play Text.builtins offline "abc" 3 true false false (fresh ["2"]))
    = inr (Some selected) /\
    selected = mock_song "abc" 2.
Proof.
  assert (NE : Text.strip "abc" <> "") by discriminate.
  split; [exact NE|].
  destruct (@selected_returned_whatever_playback Text.builtins offline "abc" 3 true false
              false (fresh ["2"]) (fresh ["2"])
              (snd (@choose_song Text.builtins (search_with_mock "abc" 3) false
                      (@rendered Text.builtins (search_with_mock "abc" 3) (fresh ["2"]))))
              (search_with_mock "abc" 3) 1 NE eq_refl eq_refl)
    as (selected & Hi & Hr & _).
  exists selected. split; [exact Hi|]. split; [exact Hr|].
  injection Hi as <-. reflexivity.
Defined.

(** *** End-to-end scenarios *)

(** [--mock --auto "test"]: five mock results, the first is selected, the
    player is looked for, and the exit status is 0. *)
Example scenario_mock_auto :
  @main Text.builtins offline
        {| arg_query := Some "test"; arg_mock := true; arg_limit := 5;
           arg_auto := true; arg_no_play := false |} (fresh [])
  = (inr 0,
     {| stdin := [];
        trace := [Print (nl ++ "Top Results:");
                  Print "1. test (Mock 1) - Mock Artist 1";
                  Print "2. test (Mock 2) - Mock Artist 2";
                  Print "3. test (Mock 3) - Mock Artist 3";
                  Print "4. test (Mock 4) - Mock Artist 4";
                  Print "5. test (Mock 5) - Mock Artist 5";
                  Print (nl ++ "🎵 Selected: test (Mock 1) - Mock Artist 1");
                  Print ("🔗 URL: https://www.youtube.com/watch?v=mock1" ++ nl);
                  Which "mpv";
                  Print "Failed to play: mpv not found. Please install it to play songs."] |}).
Proof. vm_compute. reflexivity. Qed.

(** [--mock --no-play --limit 3 "abc"] with the answer ["2"]. *)
Example scenario_mock_no_play :
  @main Text.builtins online
        {| arg_query := Some "abc"; arg_mock := true; arg_limit := 3;
           arg_auto := false; arg_no_play := true |} (fresh ["2"])
  = (inr 0,
     {| stdin := [];
        trace := [Print (nl ++ "Top Results:");
                  Print "1. abc (Mock 1) - Mock Artist 1";
                  Print "2. abc (Mock 2) - Mock Artist 2";
                  Print "3. abc (Mock 3) - Mock Artist 3";
                  Print (nl ++ "Select a song:");
                  Print "1. abc (Mock 1) - Mock Artist 1";
                  Print "2. abc (Mock 2) - Mock Artist 2";
                  Print "3. abc (Mock 3) - Mock Artist 3";
                  Prompt select_prompt;
                  Print (nl ++ "🎵 Selected: abc (Mock 2) - Mock Artist 2");
                  Print ("🔗 URL: https://www.youtube.com/watch?v=mock2" ++ nl);
                  Print "--no-play enabled, not launching mpv."] |}).
Proof. vm_compute. reflexivity. Qed.

(** [--mock ""] and a blank answer to the query prompt. *)
Example scenario_blank_query :
  @main Text.builtins online
        {| arg_query := Some ""; arg_mock := true; arg_limit := 5;
           arg_auto := false; arg_no_play := false |} (fresh ["  "])
  = (inr 0, {| stdin := []; trace := [Prompt query_prompt] |}).
Proof. vm_compute. reflexivity. Qed.

(** The live provider without the catalog capability. *)
Example scenario_catalog_absent :
  @main Text.builtins offline
        {| arg_query := Some "faded"; arg_mock := false; arg_limit := 10;
           arg_auto := false; arg_no_play := true |} (fresh ["1"])
  = (inr 0,
     {| stdin := ["1"];
        trace := [Print "Error while searching: ytmusicapi not installed. Run: pip install ytmusicapi"] |}).
Proof. vm_compute. reflexivity. Qed.

(** The live provider, a player that exits with a non-zero status: the
    code is printed and the song is still returned. *)
Example scenario_player_exit_code :
  @search_and_play Text.builtins
     {| YTMusic := Some (inr three_item_catalog);
        which := fun _ => Some "/usr/bin/mpv";
        run := fun _ => Exited 2 |}
     "b" 3 false true false (fresh [])
  = (inr (Some {| title := PStr "B"; artist := PStr "Y";
                  url := "https://www.youtube.com/watch?v=b" |}),
     {| stdin := [];
        trace := [CatalogOpen; CatalogSearch "b" "songs";
                  Print (nl ++ "Top Results:");
                  Print "1. B - Y";
                  Print "2. Unknown Title - Unknown Artist";
                  Print (nl ++ "🎵 Selected: B - Y");
                  Print ("🔗 URL: https://www.youtube.com/watch?v=b" ++ nl);
                  Which "mpv";
                  Run ["mpv"; "--no-video"; "https://www.youtube.com/watch?v=b"];
                  Print "mpv exited with error code 2"] |}).
Proof. vm_compute. reflexivity. Qed.

(** An artists entry that cannot be subscripted is outside what the
    catalog returns: the lookup of its first element raises. *)
Example song_of_item_artists_not_a_list :
  @song_of_item Text.builtins [("artists", PInt 5); ("videoId", PStr "v")] (fresh [])
  = (inl (Exc TypeError "'int' object is not subscriptable"), fresh []).
Proof. vm_compute. reflexivity. Qed.

(** ** Further properties *)

(** *** Growth of the trace *)

Lemma grows_refl (f : event -> bool) (w : world) : grows_by f w w.
Proof. exists []. split; [now rewrite app_nil_r|reflexivity]. Qed.

Lemma grows_trans (f : event -> bool) (w1 w2 w3 : world) :
  grows_by f w1 w2 -> grows_by f w2 w3 -> grows_by f w1 w3.
Proof.
  intros (e1 & T1 & F1) (e2 & T2 & F2). exists (e1 ++ e2). split.
  - now rewrite T2, T1, app_assoc.
  - rewrite forallb_app, F1, F2. reflexivity.
Qed.

Lemma grows_emit (f : event -> bool) (ev : event) (w : world) :
  f ev = true -> grows_by f w (emit ev w).
Proof.
  intros E. exists [ev]. split; [reflexivity|]. simpl. now rewrite E.
Qed.

Lemma filter_disjoint (f g : event -> bool) (evs : list event) :
  forallb f evs = true -> (forall ev, f ev = true -> g ev = false) ->
  filter g evs = [].
Proof.
  intros F D. induction evs as [|ev evs IH]; [reflexivity|].
  simpl in F. apply andb_true_iff in F as [Fev F].
  simpl. rewrite (D ev Fev). now apply IH.
Qed.

Lemma grows_filter (f g : event -> bool) (w w' : world) :
  grows_by f w w' -> (forall ev, f ev = true -> g ev = false) ->
  filter g (trace w') = filter g (trace w).
Proof.
  intros (evs & T & F) D.
  now rewrite T, filter_app, (filter_disjoint f g evs F D), app_nil_r.
Qed.

Section Events.

Context `{Builtins}.

Lemma listing_prints (f : event -> bool) (songs : list song) (i : Z) :
  (forall text, f (Print text) = true) -> forallb f (listing songs i) = true.
Proof.
  intros P. revert i. induction songs as [|s songs IH]; intros i; simpl; [reflexivity|].
  now rewrite P, IH.
Qed.

Lemma grows_rendered (f : event -> bool) (songs : list song) (w : world) :
  (forall text, f (Print text) = true) -> grows_by f w (rendered songs w).
Proof.
  intros P. eexists. split; [reflexivity|]. cbn [forallb].
  now rewrite P, listing_prints.
Qed.

Lemma grows_announced (f : event -> bool) (selected : song) (w : world) :
  (forall text, f (Print text) = true) -> grows_by f w (announced selected w).
Proof.
  intros P. unfold announced.
  eapply grows_trans; apply grows_emit; apply P.
Qed.

Lemma choose_loop_events (f : event -> bool) (songs : list song) (pending : list string) :
  (forall text, f (Print text) = true) -> f (Prompt select_prompt) = true ->
  forallb f (snd (choose_loop songs pending)) = true.
Proof.
  intros P Q. induction pending as [|line rest IH]; simpl; [now rewrite Q|].
  destruct (String.eqb (strip line) ""); [simpl; now rewrite Q|].
  destruct (int_ (strip line)) as [value|].
  - destruct ((0 <=? value - 1) && (value - 1 <? Z.of_nat (List.length songs)));
      [simpl; now rewrite Q|].
    destruct (choose_loop songs rest) as [[r rest'] evs]. simpl in *.
    now rewrite Q, P, IH.
  - destruct (choose_loop songs rest) as [[r rest'] evs]. simpl in *.
    now rewrite Q, P, IH.
Qed.

Lemma grows_choose_song (f : event -> bool) (songs : list song) (auto : bool) (w : world) :
  (forall text, f (Print text) = true) ->
  (auto = false -> f (Prompt select_prompt) = true) ->
  grows_by f w (snd (choose_song songs auto w)).
Proof.
  intros P Q. destruct songs as [|s songs]; [apply grows_refl|].
  destruct auto; [apply grows_refl|].
  rewrite choose_song_interactive_eq by discriminate.
  pose proof (choose_loop_events f (s :: songs) (stdin w) P (Q eq_refl)) as L.
  destruct (choose_loop (s :: songs) (stdin w)) as [[r rest] evs].
  cbn [snd] in *. eexists. split; [reflexivity|].
  unfold selection_menu. rewrite forallb_app. cbn [forallb].
  now rewrite P, listing_prints, L.
Qed.

Lemma grows_provider (f : event -> bool) (env : environment) (use_mock : bool)
    (query : string) (limit : Z) (w : world) :
  (use_mock = false -> f CatalogOpen = true /\ f (CatalogSearch query "songs") = true) ->
  grows_by f w (snd (provider env use_mock query limit w)).
Proof.
  intros C. unfold provider. destruct use_mock; [apply grows_refl|].
  destruct (C eq_refl) as [CO CS].
  unfold search_with_ytmusic. destruct (YTMusic env) as [cls|]; [|apply grows_refl].
  unfold bind at 1. unfold new_client.
  destruct cls as [e|ytm]; cbn [lift raise ret snd]; [now apply grows_emit|].
  unfold bind at 1. unfold client_search.
  destruct (ytm query) as [e|reply]; cbn [lift raise ret snd].
  - eapply grows_trans; now apply grows_emit.
  - rewrite collect_songs_pure. eapply grows_trans; now apply grows_emit.
Qed.

(** [play_with_mpv], outcome by outcome. *)
Lemma play_with_mpv_eq (env : environment) (target : string) (w : world) :
  play_with_mpv env target w
  = if player_found env then
      let w' := emit (Run (mpv_command target)) (emit (Which "mpv") w) in
      match run env (mpv_command target) with
      | Exited returncode =>
          if returncode =? 0 then (inr tt, w')
          else (inr tt, emit (Print ("mpv exited with error code " ++ str_of_Z returncode)) w')
      | Interrupted => (inr tt, emit (Print (nl ++ "Stopped by user.")) w')
      | LaunchError e => (inl e, w')
      end
    else (inl (Exc RuntimeError "mpv not found. Please install it to play songs."),
          emit (Which "mpv") w).
Proof.
  unfold play_with_mpv, player_found, mpv_command, bind, shutil_which, subprocess_run.
  destruct (which env "mpv") as [[|c path]|]; [reflexivity| |reflexivity].
  destruct (run env ["mpv"; "--no-video"; target]) as [returncode| |e]; try reflexivity.
  now destruct (returncode =? 0).
Qed.

Lemma grows_play (f : event -> bool) (env : environment) (target : string) (w : world) :
  (forall text, f (Print text) = true) ->
  f (Which "mpv") = true -> f (Run (mpv_command target)) = true ->
  grows_by f w (snd (play_with_mpv env target w)).
Proof.
  intros P W R. rewrite play_with_mpv_eq.
  assert (G : grows_by f w (emit (Run (mpv_command target)) (emit (Which "mpv") w)))
    by (eapply grows_trans; now apply grows_emit).
  destruct (player_found env); [|now apply grows_emit].
  cbv zeta.
  destruct (run env (mpv_command target)) as [returncode| |e]; cbn [snd]; [| |exact G].
  - destruct (returncode =? 0); cbn [snd]; [exact G|].
    eapply grows_trans; [exact G|apply grows_emit, P].
  - eapply grows_trans; [exact G|apply grows_emit, P].
Qed.

Lemma session_grows (env : environment) (query : string) (limit : Z)
    (use_mock auto no_play : bool) (w : world) :
  grows_by (allowed query use_mock auto no_play) w
           (snd (search_and_play env query limit use_mock auto no_play w)).
Proof.
  set (f := allowed query use_mock auto no_play).
  assert (P : forall text, f (Print text) = true) by reflexivity.
  assert (Q : auto = false -> f (Prompt select_prompt) = true).
  { intros ->. reflexivity. }
  assert (C : use_mock = false ->
              f CatalogOpen = true /\ f (CatalogSearch query "songs") = true).
  { intros ->. unfold f. cbn. now rewrite String.eqb_refl. }
  rewrite search_and_play_eq.
  destruct (String.eqb (strip query) ""); [cbn [snd]; apply grows_emit, P|].
  pose proof (grows_provider f env use_mock query limit w C) as G1.
  destruct (provider env use_mock query limit w) as [[e|songs] w1]; cbn [snd] in G1 |- *.
  { eapply grows_trans; [exact G1|apply grows_emit, P]. }
  destruct songs as [|s songs]; cbn [snd].
  { eapply grows_trans; [exact G1|apply grows_emit, P]. }
  set (all := s :: songs).
  pose proof (grows_trans f _ _ _ G1 (grows_rendered f all w1 P)) as G2.
  pose proof (grows_trans f _ _ _ G2 (grows_choose_song f all auto _ P Q)) as G3.
  destruct (choose_song all auto (rendered all w1)) as [[e|[idx|]] w2]; cbn [snd] in G3 |- *;
    [exact G3| |eapply grows_trans; [exact G3|apply grows_emit, P]].
  destruct (index all idx) as [e|selected]; cbn [snd]; [exact G3|].
  pose proof (grows_trans f _ _ _ G3 (grows_announced f selected w2 P)) as G4.
  cbv zeta. destruct no_play eqn:NP; cbn [snd].
  { eapply grows_trans; [exact G4|apply grows_emit, P]. }
  assert (G5 : grows_by f w (snd (play_with_mpv env (url selected) (announced selected w2)))).
  { eapply grows_trans; [exact G4|]. apply grows_play; [exact P| |]; reflexivity. }
  destruct (play_with_mpv env (url selected) (announced selected w2)) as [[e|u] w4];
    cbn [snd] in G5 |- *; [|exact G5].
  eapply grows_trans; [exact G5|apply grows_emit, P].
Qed.

(** X1.  Every event a session adds to the trace is allowed by its query
    and flags: besides prints, the catalog is opened and searched only
    without [use_mock], and searched for the session's query with the filter
    ["songs"]; the only prompt is the selector's, and only without [auto];
    the player is looked for and run only without [no_play], and what is
    run is [mpv --no-video] with one argument.  In particular a session with
    [use_mock] adds no catalog event. *)
Theorem session_events_allowed (env : environment) (query : string) (limit : Z)
    (use_mock auto no_play : bool) (w : world) :
  grows_by (allowed query use_mock auto no_play) w
           (snd (search_and_play env query limit use_mock auto no_play w)) /\
  filter catalog_event (trace (snd (search_and_play env query limit true auto no_play w)))
  = filter catalog_event (trace w).
Proof.
  split; [apply session_grows|].
  apply (grows_filter (allowed query true auto no_play)); [apply session_grows|].
  intros [text|text| |q f|name|argv]; cbn; congruence.
Qed.

Lemma stdin_provider (env : environment) (use_mock : bool) (query : string)
    (limit : Z) (w : world) :
  stdin (snd (provider env use_mock query limit w)) = stdin w.
Proof.
  unfold provider. destruct use_mock; [reflexivity|].
  unfold search_with_ytmusic. destruct (YTMusic env) as [cls|]; [|reflexivity].
  unfold bind at 1. unfold new_client.
  destruct cls as [e|ytm]; cbn [lift raise ret snd]; [reflexivity|].
  unfold bind at 1. unfold client_search.
  destruct (ytm query) as [e|reply]; cbn [lift raise ret snd]; [reflexivity|].
  now rewrite collect_songs_pure.
Qed.

Lemma stdin_play (env : environment) (target : string) (w : world) :
  stdin (snd (play_with_mpv env target w)) = stdin w.
Proof.
  rewrite play_with_mpv_eq. destruct (player_found env); [|reflexivity]. cbv zeta.
  destruct (run env (mpv_command target)) as [returncode| |e]; try reflexivity.
  now destruct (returncode =? 0).
Qed.

Lemma choose_song_auto_world (songs : list song) (w : world) :
  snd (choose_song songs true w) = w.
Proof. now destruct songs. Qed.

(** X2.  With [auto] a session reads nothing: the pending input is left as
    it was and no prompt is shown, whatever the provider and the player
    do. *)
Theorem auto_reads_nothing (env : environment) (query : string) (limit : Z)
    (use_mock no_play : bool) (w : world) :
  stdin (snd (search_and_play env query limit use_mock true no_play w)) = stdin w /\
  filter prompt_event (trace (snd (search_and_play env query limit use_mock true no_play w)))
  = filter prompt_event (trace w).
Proof.
  split.
  - rewrite search_and_play_eq.
    destruct (String.eqb (strip query) ""); [reflexivity|].
    pose proof (stdin_provider env use_mock query limit w) as S1.
    destruct (provider env use_mock query limit w) as [[e|songs] w1]; cbn [snd] in S1 |- *;
      [exact S1|].
    destruct songs as [|s songs]; [exact S1|].
    set (all := s :: songs).
    pose proof (choose_song_auto_world all (rendered all w1)) as S2.
    destruct (choose_song all true (rendered all w1)) as [[e|[idx|]] w2];
      cbn [snd] in S2 |- *; subst w2; [exact S1| |exact S1].
    destruct (index all idx) as [e|selected]; cbn [snd]; [exact S1|].
    cbv zeta. destruct no_play; [exact S1|].
    pose proof (stdin_play env (url selected) (announced selected (rendered all w1))) as S3.
    destruct (play_with_mpv env (url selected) (announced selected (rendered all w1)))
      as [[e|u] w4]; cbn [snd] in S3 |- *; cbn [emit stdin]; now rewrite S3.
  - apply (grows_filter (allowed query use_mock true no_play)); [apply session_grows|].
    intros [text|text| |q f|name|argv]; cbn; congruence.
Qed.

Lemma filter_emit_in (f : event -> bool) (ev : event) (w : world) :
  f ev = true -> filter f (trace (emit ev w)) = filter f (trace w) ++ [ev].
Proof.
  intros E. unfold emit. cbn [trace]. rewrite filter_app. simpl. now rewrite E.
Qed.

Lemma player_events_play (env : environment) (target : string) (w : world) :
  filter player_event (trace (snd (play_with_mpv env target w)))
  = filter player_event (trace w)
    ++ Which "mpv" :: (if player_found env then [Run (mpv_command target)] else []).
Proof.
  rewrite play_with_mpv_eq.
  destruct (player_found env); [|cbn [snd]; now rewrite filter_emit_in].
  cbv zeta.
  assert (E : filter player_event
                (trace (emit (Run (mpv_command target)) (emit (Which "mpv") w)))
              = filter player_event (trace w) ++ [Which "mpv"; Run (mpv_command target)]).
  { rewrite !filter_emit_in by reflexivity. now rewrite <- app_assoc. }
  destruct (run env (mpv_command target)) as [returncode| |e]; cbn [snd].
  - destruct (returncode =? 0); cbn [snd]; [exact E|].
    now rewrite filter_emit.
  - now rewrite filter_emit.
  - exact E.
Qed.

(** X3.  The player events a session adds are fixed by what it returns.  A
    session that returns no song, or runs with [no_play], adds none.
    Otherwise it looks for [mpv] once and, when found, runs it once, as
    [mpv --no-video] with the locator of the song it returns. *)
Theorem session_player_events (env : environment) (query : string) (limit : Z)
    (use_mock auto no_play : bool) (w : world) :
  filter player_event
         (trace (snd (search_and_play env query limit use_mock auto no_play w)))
  = filter player_event (trace w)
    ++ match fst (search_and_play env query limit use_mock auto no_play w) with
       | inr (Some selected) =>
           if no_play then []
           else Which "mpv"
                :: (if player_found env then [Run (mpv_command (url selected))] else [])
       | _ => []
       end.
Proof.
  rewrite search_and_play_eq.
  destruct (String.eqb (strip query) "");
    [cbn [fst snd]; now rewrite filter_emit, app_nil_r|].
  pose proof (player_events_provider env use_mock query limit w) as P.
  destruct (provider env use_mock query limit w) as [[e|songs] w1]; cbn [snd] in P;
    [cbn [fst snd]; now rewrite filter_emit, app_nil_r|].
  destruct songs as [|s songs];
    [cbn [fst snd]; now rewrite filter_emit, app_nil_r|].
  set (all := s :: songs).
  pose proof (player_events_choose_song all auto (rendered all w1)) as C.
  rewrite player_events_rendered, P in C.
  destruct (choose_song all auto (rendered all w1)) as [[e|[idx|]] w2]; cbn [snd] in C;
    [cbn [fst snd]; now rewrite app_nil_r| |
     cbn [fst snd]; now rewrite filter_emit, app_nil_r].
  destruct (index all idx) as [e|selected]; [cbn [fst snd]; now rewrite app_nil_r|].
  cbv zeta.
  destruct no_play;
    [cbn [fst snd]; now rewrite filter_emit, player_events_announced, app_nil_r|].
  pose proof (player_events_play env (url selected) (announced selected w2)) as L.
  rewrite player_events_announced, C in L.
  destruct (play_with_mpv env (url selected) (announced selected w2)) as [[e|u] w4];
    cbn [fst snd] in L |- *; [now rewrite filter_emit|exact L].
Qed.

End Events.

(** *** Branches of the session *)

Section Branches.

Context `{Builtins}.

(** X4.  When the provider returns no song, the session prints
    ["No results found."] and returns none, and there is no selection step:
    no line is read and no prompt is shown, with [auto] or without. *)
Theorem no_results_reported (env : environment) (query : string) (limit : Z)
    (use_mock auto no_play : bool) (w w1 : world) :
  strip query <> "" ->
  provider env use_mock query limit w = (inr [], w1) ->
  search_and_play env query limit use_mock auto no_play w
  = (inr None, emit (Print "No results found.") w1) /\
  stdin w1 = stdin w /\
  filter prompt_event (trace (emit (Print "No results found.") w1))
  = filter prompt_event (trace w).
Proof.
  intros NE E. apply String.eqb_neq in NE.
  split; [rewrite search_and_play_eq, NE, E; reflexivity|].
  pose proof (stdin_provider env use_mock query limit w) as S.
  pose proof (grows_provider catalog_event env use_mock query limit w
                (fun _ => conj eq_refl eq_refl)) as G.
  rewrite E in S, G. cbn [snd] in S, G. split; [exact S|].
  rewrite filter_emit by reflexivity.
  apply (grows_filter catalog_event); [exact G|].
  now intros [text|text| |q f|name|argv].
Qed.

(** X5.  Without [auto], when the provider returned songs and the input is
    at its end or its next line is blank, the session shows the results and
    the menu, prompts once, prints ["No song selected."] and returns none;
    at most that one line is consumed. *)
Theorem cancelled_selection_reported (env : environment) (query : string) (limit : Z)
    (use_mock no_play : bool) (w w1 : world) (songs : list song) :
  strip query <> "" ->
  provider env use_mock query limit w = (inr songs, w1) ->
  songs <> [] ->
  (stdin w1 = [] \/ exists line rest, stdin w1 = line :: rest /\ blank line) ->
  search_and_play env query limit use_mock false no_play w
  = (inr None,
     {| stdin := tl (stdin w1);
        trace := trace w1 ++ (Print (nl ++ "Top Results:") :: listing songs 1)
                          ++ selection_menu songs
                          ++ [Prompt select_prompt; Print "No song selected."] |}).
Proof.
  intros NE E S C. apply String.eqb_neq in NE.
  rewrite search_and_play_eq, NE, E.
  destruct songs as [|s songs]; [contradiction|].
  rewrite choose_song_interactive_eq by discriminate.
  cbn [stdin trace rendered].
  assert (L : choose_loop (s :: songs) (stdin w1)
              = (None, tl (stdin w1), [Prompt select_prompt])).
  { destruct C as [->|(line & rest & -> & B)]; [reflexivity|].
    now rewrite choose_loop_blank. }
  rewrite L. unfold emit. cbn [stdin trace].
  now rewrite <- !app_assoc.
Qed.

(** X6.  [play_with_mpv] raises in two cases only: [mpv] is not found, or
    launching it raises.  A player that exits, with whatever status, or
    that the user interrupts, makes it return normally. *)
Theorem play_with_mpv_raises_iff (env : environment) (target : string) (w : world) :
  (exists e w', play_with_mpv env target w = (inl e, w')) <->
  (player_found env = false \/ exists e, run env (mpv_command target) = LaunchError e).
Proof.
  rewrite play_with_mpv_eq. destruct (player_found env).
  - cbv zeta. destruct (run env (mpv_command target)) as [returncode| |e].
    + split.
      * intros (e & w' & E). now destruct (returncode =? 0).
      * intros [D|(e & D)]; discriminate.
    + split; [intros (e & w' & E)|intros [D|(e & D)]]; discriminate.
    + split; [intros _; right; now exists e|intros _; now eexists _, _].
  - split; [intros _; now left|intros _; now eexists _, _].
Qed.

End Branches.

(** *** The deterministic provider, further *)

Lemma seq_firstn (a b start : nat) :
  (a <= b)%nat -> seq start a = firstn a (seq start b).
Proof.
  intros L. replace b with (a + (b - a))%nat by lia.
  rewrite seq_app, firstn_app, length_seq, Nat.sub_diag. cbn [firstn].
  rewrite app_nil_r. rewrite <- (length_seq a start) at 2. now rewrite firstn_all.
Qed.

Lemma range_firstn (n m : Z) : n <= m -> range n = firstn (Z.to_nat n) (range m).
Proof.
  intros L. unfold range. rewrite firstn_map. f_equal. apply seq_firstn. lia.
Qed.

(** X7.  The results of [search_with_mock] for a limit are the first ones
    of its results for any larger limit, and a limit of zero or less gives
    no result. *)
Theorem search_with_mock_prefix (query : string) (limit larger : Z) :
  (limit <= larger ->
   search_with_mock query limit
   = firstn (Z.to_nat limit) (search_with_mock query larger)) /\
  (limit <= 0 -> search_with_mock query limit = []).
Proof.
  split.
  - intros L. rewrite !search_with_mock_map, firstn_map. f_equal. now apply range_firstn.
  - intros L. rewrite search_with_mock_map. unfold range.
    replace (Z.to_nat limit) with 0%nat by lia. reflexivity.
Qed.

(** *** The live provider, further *)

Section LiveMore.

Context `{Builtins}.

Lemma song_of_item_usable (item : dict) (w : world) :
  artists_usable item = true ->
  song_of_item item w
  = (inr (if has_id item then Some (descriptor item) else None), w).
Proof.
  unfold artists_usable. intros U.
  destruct (get item "artists") as [|b|z|s|l|d] eqn:E.
  - apply song_of_item_listed. now left.
  - apply negb_true_iff in U. subst b.
    unfold song_of_item, has_id, descriptor, item_artist, or_. rewrite E.
    cbn. unfold bind, ret. now destruct (truthy (get item "videoId")).
  - apply Z.eqb_eq in U. subst z.
    unfold song_of_item, has_id, descriptor, item_artist, or_. rewrite E.
    cbn. unfold bind, ret. now destruct (truthy (get item "videoId")).
  - unfold song_of_item, has_id, descriptor, item_artist, or_. rewrite E.
    destruct s as [|c s]; cbn; unfold bind, ret; cbn;
      now destruct (truthy (get item "videoId")).
  - apply song_of_item_listed. right. now exists l.
  - destruct d as [|kv d]; [|discriminate].
    unfold song_of_item, has_id, descriptor, item_artist, or_. rewrite E.
    cbn. unfold bind, ret. now destruct (truthy (get item "videoId")).
Qed.

Lemma song_of_item_unusable (item : dict) (w : world) :
  artists_usable item = false ->
  song_of_item item w = (inl (artists_error item), w) /\
  (exc_class (artists_error item) = TypeError \/ exc_class (artists_error item) = KeyError).
Proof.
  unfold artists_usable. intros U.
  destruct (get item "artists") as [|b|z|s|l|d] eqn:E; try discriminate.
  - apply negb_false_iff in U. subst b.
    unfold song_of_item, artists_error, or_. rewrite E. cbn.
    split; [reflexivity|now left].
  - unfold song_of_item, artists_error, or_. rewrite E.
    cbn. rewrite !U. cbn. rewrite !U. cbn.
    split; [reflexivity|now left].
  - destruct d as [|kv d]; [discriminate|].
    unfold song_of_item, artists_error, or_. rewrite E. cbn.
    split; [reflexivity|now right].
Qed.

Lemma collect_songs_eq (items : list dict) (songs : list song) (w : world) :
  collect_songs items songs w
  = (match first_unusable items with
     | None => inr (songs ++ map descriptor (filter has_id items))
     | Some item => inl (artists_error item)
     end, w).
Proof.
  revert songs. induction items as [|item items IH]; intros songs.
  - cbn. now rewrite app_nil_r.
  - cbn [collect_songs]. unfold bind at 1. unfold first_unusable. cbn [find filter].
    destruct (artists_usable item) eqn:U; cbn [negb].
    + rewrite song_of_item_usable by assumption.
      destruct (has_id item); rewrite IH; unfold first_unusable;
        destruct (find _ items); try reflexivity.
      cbn [map]. now rewrite <- app_assoc.
    + now rewrite (proj1 (song_of_item_unusable item w U)).
Qed.

Lemma search_with_ytmusic_eq (env : environment) (query : string) (limit : Z)
    (w : world) (ytm : catalog) (reply : option (list dict)) :
  YTMusic env = Some (inr ytm) ->
  ytm query = inr reply ->
  search_with_ytmusic env query limit w
  = (match first_unusable (slice_to (reply_items reply) limit) with
     | None => inr (map descriptor (filter has_id (slice_to (reply_items reply) limit)))
     | Some item => inl (artists_error item)
     end,
     {| stdin := stdin w;
        trace := trace w ++ [CatalogOpen; CatalogSearch query "songs"] |}).
Proof.
  intros Hy Hq. unfold search_with_ytmusic. rewrite Hy.
  unfold bind at 1. unfold new_client, lift, ret. unfold bind at 1.
  unfold client_search. rewrite Hq. cbn [lift ret].
  replace (match reply with Some (item :: more) => item :: more | _ => [] end)
    with (reply_items reply) by (now destruct reply as [[|item more]|]).
  rewrite collect_songs_eq. unfold emit. cbn [app stdin trace].
  now rewrite <- app_assoc.
Qed.

Lemma slice_to_negative {A : Type} (l : list A) (n : Z) :
  n < 0 -> slice_to l n = firstn (List.length l - Z.to_nat (- n)) l.
Proof.
  intros L. unfold slice_to.
  replace (0 <=? n) with false by (symmetry; apply Z.leb_gt; lia).
  f_equal. lia.
Qed.

(** X8.  With a catalog that answers, and for any [limit], positive or
    not, [search_with_ytmusic] looks at the items [results[:limit]] and
    nothing else.  When the artists entry of each of them can be read, it
    returns the descriptors of those with an identifier, in order; otherwise
    it raises what [artists[0]] raises for the first item whose entry cannot
    be read, and returns nothing.  A reply of [None] is read as no items; a
    limit of zero looks at no item; a negative limit looks at all items but
    the last [-limit]. *)
Theorem search_with_ytmusic_any_limit (env : environment) (query : string) (limit : Z)
    (w : world) (ytm : catalog) (reply : option (list dict)) :
  YTMusic env = Some (inr ytm) ->
  ytm query = inr reply ->
  search_with_ytmusic env query limit w
  = (match first_unusable (slice_to (reply_items reply) limit) with
     | None => inr (map descriptor (filter has_id (slice_to (reply_items reply) limit)))
     | Some item => inl (artists_error item)
     end,
     {| stdin := stdin w;
        trace := trace w ++ [CatalogOpen; CatalogSearch query "songs"] |}) /\
  (reply = None -> slice_to (reply_items reply) limit = []) /\
  (limit = 0 -> slice_to (reply_items reply) limit = []) /\
  (limit < 0 ->
   slice_to (reply_items reply) limit
   = firstn (List.length (reply_items reply) - Z.to_nat (- limit)) (reply_items reply)).
Proof.
  intros Hy Hq. split; [now apply (search_with_ytmusic_eq env query limit w ytm)|].
  split; [|split].
  - intros ->. unfold slice_to. cbn [reply_items]. now destruct (0 <=? limit); rewrite firstn_nil.
  - now intros ->.
  - apply slice_to_negative.
Qed.

End LiveMore.

(** *** The descriptors of the live provider *)

Section LiveDescriptors.

Context `{Builtins}.

Lemma first_unusable_none (items : list dict) :
  Forall (fun item => artists_usable item = true) items -> first_unusable items = None.
Proof.
  unfold first_unusable. induction 1 as [|item items U _ IH]; [reflexivity|].
  cbn [find]. now rewrite U.
Qed.

Lemma slice_to_positive {A : Type} (l : list A) (n : Z) :
  0 < n -> slice_to l n = firstn (Z.to_nat n) l.
Proof.
  intros L. unfold slice_to.
  now replace (0 <=? n) with true by (symmetry; apply Z.leb_le; lia).
Qed.

(** C2.  For a positive [limit] and a reply of the catalog in which the
    artists entry of each of the first [limit] items can be read (it is
    absent or otherwise falsy, or a list, or a string), [search_with_ytmusic]
    calls the catalog once and returns the descriptors of those of the first
    [limit] items that carry an identifier, in order: at most [limit] of
    them, fewer by one for each item without identifier among the first
    [limit].  A descriptor has the item's title, or the placeholder when the
    title is absent or empty; the name of the first listed artist, or the
    placeholder when the artists entry is absent or empty, is a string, its
    first element is not a dict, or that dict has no name; and the
    identifier put into the URL template. *)
Theorem search_with_ytmusic_descriptors (env : environment) (query : string)
    (limit : Z) (w : world) (ytm : catalog) (reply : option (list dict)) :
  0 < limit ->
  YTMusic env = Some (inr ytm) ->
  ytm query = inr reply ->
  Forall (fun item => artists_usable item = true) (considered limit reply) ->
  search_with_ytmusic env query limit w
  = (inr (map descriptor (filter has_id (considered limit reply))),
     {| stdin := stdin w;
        trace := trace w ++ [CatalogOpen; CatalogSearch query "songs"] |}) /\
  Z.of_nat (List.length (map descriptor (filter has_id (considered limit reply)))) <= limit /\
  (List.length (map descriptor (filter has_id (considered limit reply)))
   + List.length (filter (fun item => negb (has_id item)) (considered limit reply))
   = List.length (considered limit reply))%nat /\
  (forall item,
      title (descriptor item)
      = (if truthy (get item "title") then get item "title" else PStr "Unknown Title") /\
      url (descriptor item)
      = ("https://www.youtube.com/watch?v=" ++ str (get item "videoId"))%string /\
      (get item "title" = PNone -> title (descriptor item) = PStr "Unknown Title") /\
      (get item "artists" = PNone -> artist (descriptor item) = PStr "Unknown Artist") /\
      (get item "artists" = PList [] -> artist (descriptor item) = PStr "Unknown Artist") /\
      (truthy (get item "artists") = false ->
       artist (descriptor item) = PStr "Unknown Artist") /\
      (forall text,
          get item "artists" = PStr text ->
          artist (descriptor item) = PStr "Unknown Artist") /\
      (forall first more,
          get item "artists" = PList (first :: more) ->
          (forall d, first <> PDict d) ->
          artist (descriptor item) = PStr "Unknown Artist") /\
      (forall d more,
          get item "artists" = PList (PDict d :: more) ->
          artist (descriptor item)
          = (if truthy (get d "name") then get d "name" else PStr "Unknown Artist"))).
Proof.
  intros Hl Hy Hq Hall.
  assert (Hlen : (List.length (filter has_id (considered limit reply)) <= Z.to_nat limit)%nat).
  { etransitivity; [apply filter_length_le|]. apply firstn_le_length. }
  split; [|split; [|split]].
  - rewrite (search_with_ytmusic_eq env query limit w ytm reply Hy Hq).
    rewrite slice_to_positive by assumption. fold (considered limit reply).
    now rewrite first_unusable_none.
  - rewrite length_map. lia.
  - rewrite length_map. apply filter_length_split.
  - intros item. unfold descriptor, item_artist. cbn [title artist url].
    repeat split.
    + now intros ->.
    + now intros ->.
    + now intros ->.
    + destruct (get item "artists") as [| | | |[|first more]|[|kv d]];
        try reflexivity; discriminate.
    + now intros text ->.
    + intros first more -> Hd. destruct first; try reflexivity. now destruct (Hd d).
    + now intros d more ->.
Qed.

End LiveDescriptors.

Lemma search_with_ytmusic_descriptors_witness :
  0 < 2 /\
  Forall (fun item => artists_usable item = true) (considered 2 (Some loose_items)) /\
  @search_with_ytmusic Text.builtins loose "hello" 2 (fresh [])
  = (inr [ {| title := PStr "Hello"; artist := PStr "Unknown Artist";
              url := "https://www.youtube.com/watch?v=h" |} ],
     {| stdin := []; trace := [CatalogOpen; CatalogSearch "hello" "songs"] |}).
Proof.
  assert (L : 0 < 2) by lia.
  assert (A : Forall (fun item => artists_usable item = true)
                     (considered 2 (Some loose_items))).
  { unfold considered, loose_items. simpl.
    constructor; [reflexivity|]. constructor; [reflexivity|constructor]. }
  split; [exact L|]. split; [exact A|].
  exact (proj1 (@search_with_ytmusic_descriptors Text.builtins loose "hello" 2 (fresh [])
                  loose_catalog (Some loose_items) L eq_refl eq_refl A)).
Defined.

(** Stated for every sequence of items, the property of the descriptors
    fails on an item whose artists entry is a number: the catalog answers
    with one item that has a title and an identifier, and the provider
    raises instead of returning its descriptor with the placeholder. *)
Lemma search_with_ytmusic_malformed_artists :
  0 < 5 /\
  YTMusic numbered = Some (inr numbered_catalog) /\
  numbered_catalog "abc" = inr (Some numbered_items) /\
  @search_with_ytmusic Text.builtins numbered "abc" 5 (fresh [])
  = (inl (Exc TypeError "'int' object is not subscriptable"),
     {| stdin := []; trace := [CatalogOpen; CatalogSearch "abc" "songs"] |}).
Proof.
  split; [lia|]. split; [reflexivity|]. split; [reflexivity|].
  vm_compute. reflexivity.
Qed.

(** *** What the providers hand to the session *)

Section Handover.

Context `{Builtins}.

Lemma append_not_empty (a b : string) : b <> "" -> (a ++ b)%string <> "".
Proof.
  intros NE. destruct a; [exact NE|discriminate].
Qed.

Lemma truthy_str (s : string) : s <> "" -> truthy (PStr s) = true.
Proof.
  intros NE. cbn. apply negb_true_iff. now apply String.eqb_neq.
Qed.

Lemma truthy_or (x y : pyval) : truthy y = true -> truthy (or_ x y) = true.
Proof.
  intros Y. unfold or_. now destruct (truthy x) eqn:X.
Qed.

Lemma mock_song_presentable (query : string) (i : Z) : presentable (mock_song query i).
Proof.
  unfold presentable, mock_song. cbn [title artist url]. split; [|split].
  - apply truthy_str, append_not_empty. discriminate.
  - apply truthy_str. discriminate.
  - exists (PStr ("mock" ++ str_of_Z i)). split; [apply truthy_str; discriminate|].
    reflexivity.
Qed.

Lemma descriptor_presentable (item : dict) :
  has_id item = true -> presentable (descriptor item).
Proof.
  intros I. unfold presentable, descriptor. cbn [title artist url]. split; [|split].
  - now apply truthy_or.
  - unfold item_artist.
    destruct (get item "artists") as [| | | |[|[| | | | |d] more]|]; try reflexivity.
    now apply truthy_or.
  - exists (get item "videoId"). split; [exact I|reflexivity].
Qed.

(** X9.  Whatever a provider returns, every descriptor in it can be shown
    and played: its title and its artist are not empty (a placeholder stands
    in where the catalog gave none) and its locator is the URL template
    filled with an identifier that is not empty. *)
Theorem provider_songs_presentable (env : environment) (use_mock : bool)
    (query : string) (limit : Z) (w w' : world) (songs : list song) :
  provider env use_mock query limit w = (inr songs, w') ->
  Forall presentable songs.
Proof.
  unfold provider. destruct use_mock.
  - intros [= <- _]. rewrite search_with_mock_map. apply Forall_forall.
    intros s Hs. apply in_map_iff in Hs as (i & <- & _). apply mock_song_presentable.
  - unfold search_with_ytmusic. destruct (YTMusic env) as [cls|]; [|discriminate].
    unfold bind at 1. unfold new_client.
    destruct cls as [e|ytm]; cbn [lift raise ret]; [discriminate|].
    unfold bind at 1. unfold client_search.
    destruct (ytm query) as [e|reply]; cbn [lift raise ret]; [discriminate|].
    rewrite collect_songs_eq.
    destruct (first_unusable _); [discriminate|].
    intros [= <- _]. cbn [app]. apply Forall_forall.
    intros s Hs. apply in_map_iff in Hs as (item & <- & Hitem).
    apply filter_In in Hitem as [_ I]. now apply descriptor_presentable.
Qed.

(** X10.  One item among [results[:limit]] whose artists entry cannot be
    read (a non-zero number, [True], or a non-empty dict) fails the whole
    search, whether or not the item has an identifier: the session prints
    ["Error while searching: "] with the [TypeError] or [KeyError] of the
    first such item and returns none, without a selection step. *)
Theorem unreadable_artists_fail_search (env : environment) (query : string)
    (limit : Z) (auto no_play : bool) (w : world) (ytm : catalog)
    (reply : option (list dict)) (item : dict) :
  strip query <> "" ->
  YTMusic env = Some (inr ytm) ->
  ytm query = inr reply ->
  first_unusable (slice_to (reply_items reply) limit) = Some item ->
  search_and_play env query limit false auto no_play w
  = (inr None,
     {| stdin := stdin w;
        trace := trace w ++ [CatalogOpen; CatalogSearch query "songs";
                             Print ("Error while searching: "
                                    ++ exc_msg (artists_error item))] |}) /\
  In item (slice_to (reply_items reply) limit) /\
  artists_usable item = false /\
  (exc_class (artists_error item) = TypeError \/ exc_class (artists_error item) = KeyError).
Proof.
  intros NE Hy Hq F. apply String.eqb_neq in NE.
  pose proof (find_some _ _ F) as [Hin U]. apply negb_true_iff in U.
  split; [|split; [exact Hin|split; [exact U|]]].
  - rewrite search_and_play_eq, NE. unfold provider.
    rewrite (search_with_ytmusic_eq env query limit w ytm reply Hy Hq), F.
    unfold emit. cbn [stdin trace]. now rewrite <- app_assoc.
  - exact (proj2 (song_of_item_unusable item w U)).
Qed.

End Handover.

(** *** The selector and the session, composed *)

Section Composition.

Context `{Builtins}.

Lemma choose_loop_by_length (a b : list song) (pending : list string) :
  List.length a = List.length b -> choose_loop a pending = choose_loop b pending.
Proof.
  intros L. induction pending as [|line rest IH]; [reflexivity|].
  cbn [choose_loop]. now rewrite L, IH.
Qed.

(** X11.  What the selector returns, and what it reads, depends on the
    number of songs only, not on the songs: on two sequences of the same
    length it returns the same choice and leaves the same input. *)
Theorem choose_song_by_length (a b : list song) (auto : bool) (w : world) :
  List.length a = List.length b ->
  fst (choose_song a auto w) = fst (choose_song b auto w) /\
  stdin (snd (choose_song a auto w)) = stdin (snd (choose_song b auto w)).
Proof.
  intros L. destruct a as [|x a], b as [|y b]; try discriminate; [now split|].
  destruct auto; [now split|].
  rewrite !choose_song_interactive_eq by discriminate.
  rewrite (choose_loop_by_length (x :: a) (y :: b) (stdin w) L).
  destruct (choose_loop (y :: b) (stdin w)) as [[r rest] evs]. now split.
Qed.

Lemma search_with_mock_first (query : string) (limit : Z) :
  1 <= limit ->
  exists more, search_with_mock query limit = mock_song query 1 :: more.
Proof.
  intros L. rewrite search_with_mock_map. unfold range.
  destruct (Z.to_nat limit) as [|n] eqn:E; [lia|].
  cbn [seq map]. eexists. reflexivity.
Qed.

(** X12.  With [use_mock] and [auto], a query that is not blank and a limit
    of at least 1, the session returns the first mock descriptor, whatever
    the environment and the pending input; with [no_play] as well, all it
    does is print the results, the selection and the skip message. *)
Theorem mock_auto_session (env : environment) (query : string) (limit : Z)
    (no_play : bool) (w : world) :
  strip query <> "" ->
  1 <= limit ->
  fst (search_and_play env query limit true true no_play w)
  = inr (Some (mock_song query 1)) /\
  search_and_play env query limit true true true w
  = (inr (Some (mock_song query 1)),
     emit (Print "--no-play enabled, not launching mpv.")
          (announced (mock_song query 1) (rendered (search_with_mock query limit) w))).
Proof.
  intros NE L. apply String.eqb_neq in NE.
  destruct (search_with_mock_first query limit L) as (more & E).
  rewrite !search_and_play_eq, NE. unfold provider, ret. rewrite E.
  cbn [choose_song ret index]. cbv zeta. split; [|reflexivity].
  change (index (mock_song query 1 :: more) 0) with (@inr exception _ (mock_song query 1)).
  destruct no_play; [reflexivity|].
  now destruct (play_with_mpv env (url (mock_song query 1)) _) as [[e|u] w4].
Qed.

(** X13.  A positional query made of whitespace only is not prompted for
    again: [main] passes it to the session, which prints ["Empty query."],
    and returns 0 without reading any input. *)
Theorem main_whitespace_query (env : environment) (args : Namespace) (w : world)
    (query : string) :
  arg_query args = Some query ->
  query <> "" ->
  strip query = "" ->
  main env args w = (inr 0, emit (Print "Empty query.") w).
Proof.
  intros E NE B. destruct query as [|c q]; [contradiction|].
  rewrite (main_with_query env args w c q E), search_and_play_eq, B.
  reflexivity.
Qed.

End Composition.

(** *** Numbers as text *)

Lemma uint_value_pos (u : Decimal.uint) (a : positive) :
  uint_value u (Zpos a) = Zpos (Pos.of_uint_acc u a).
Proof.
  revert a. induction u; intros a; cbn [uint_value Pos.of_uint_acc];
    [reflexivity|..];
    match goal with
    | |- uint_value _ ?x = Zpos (Pos.of_uint_acc _ ?y) =>
        replace x with (Zpos y) by lia; apply IHu
    end.
Qed.

Lemma uint_value_zero (u : Decimal.uint) : uint_value u 0 = Z.of_N (Pos.of_uint u).
Proof.
  induction u; cbn [uint_value Pos.of_uint]; [reflexivity|exact IHu|..];
    cbn [Z.mul Z.add Z.of_N]; apply uint_value_pos.
Qed.

Lemma uint_value_to_uint (p : positive) : uint_value (Pos.to_uint p) 0 = Zpos p.
Proof.
  now rewrite uint_value_zero, DecimalPos.Unsigned.of_to.
Qed.

Lemma digits_of_uint (u : Decimal.uint) (acc : Z) (after_digit : bool) :
  u <> Decimal.Nil \/ after_digit = true ->
  Text.digits (NilEmpty.string_of_uint u) acc after_digit = Some (uint_value u acc).
Proof.
  revert acc after_digit.
  induction u; intros acc after_digit D;
    [destruct D as [D| ->]; [contradiction|reflexivity]|..];
    cbn [NilEmpty.string_of_uint Text.digits uint_value];
    (change (Text.is_digit _) with true; cbv iota);
    apply IHu; now right.
Qed.

Lemma rstrip_of_uint (u : Decimal.uint) :
  Text.rstrip (NilEmpty.string_of_uint u) = NilEmpty.string_of_uint u.
Proof.
  induction u; cbn [NilEmpty.string_of_uint Text.rstrip]; [reflexivity|..];
    rewrite IHu; now destruct (NilEmpty.string_of_uint u).
Qed.

Lemma strip_of_uint (u : Decimal.uint) :
  Text.strip (NilEmpty.string_of_uint u) = NilEmpty.string_of_uint u.
Proof.
  unfold Text.strip.
  replace (Text.lstrip (NilEmpty.string_of_uint u)) with (NilEmpty.string_of_uint u)
    by (now destruct u).
  apply rstrip_of_uint.
Qed.

(** [int(str(n))] is [n] for a positive [n], in the builtins on ASCII
    text. *)
Lemma int_str_of_pos (p : positive) :
  Text.int_ (Text.strip (str_of_Z (Zpos p))) = Some (Zpos p).
Proof.
  unfold str_of_Z. cbn [Z.to_int NilZero.string_of_int].
  pose proof (DecimalPos.Unsigned.to_uint_nonnil p) as NN.
  assert (E : NilZero.string_of_uint (Pos.to_uint p)
              = NilEmpty.string_of_uint (Pos.to_uint p))
    by (unfold NilZero.string_of_uint; now destruct (Pos.to_uint p)).
  rewrite E. unfold Text.int_. rewrite !strip_of_uint.
  rewrite <- (uint_value_to_uint p).
  destruct (Pos.to_uint p) as [|l|l|l|l|l|l|l|l|l|l]; [contradiction|..];
    cbn [NilEmpty.string_of_uint];
    (rewrite <- (digits_of_uint _ 0 false) by (now left); reflexivity).
Qed.

Section Menu.

Context `{Builtins}.

Lemma listing_nth (songs : list song) (i : Z) (k : nat) (s : song) :
  nth_error songs k = Some s ->
  nth_error (listing songs i) k
  = Some (Print (str_of_Z (i + Z.of_nat k) ++ ". " ++ str (title s) ++ " - "
                   ++ str (artist s))).
Proof.
  revert i k. induction songs as [|x songs IH]; intros i k E.
  - now destruct k.
  - destruct k as [|k].
    + injection E as ->. cbn [listing nth_error]. now rewrite Z.add_0_r.
    + cbn [listing nth_error]. rewrite (IH (i + 1) k E).
      now replace (i + Z.of_nat (S k)) with (i + 1 + Z.of_nat k) by lia.
Qed.

End Menu.

(** X14.  The number shown beside a song in the menu selects that song:
    when the answer to the prompt is that number, as [str] writes it, the
    selector returns the index of the song after one prompt and consumes
    that line only (with [int] and [strip] as the builtins on ASCII text
    have them). *)
Theorem displayed_number_selects (songs : list song) (k : nat) (s : song)
    (rest : list string) (seen : list event) :
  nth_error songs k = Some s ->
  nth_error (@listing Text.builtins songs 1) k
  = Some (Print (str_of_Z (Z.of_nat k + 1) ++ ". "
                   ++ @str Text.builtins (title s) ++ " - "
                   ++ @str Text.builtins (artist s))) /\
  @choose_song Text.builtins songs false
     {| stdin := str_of_Z (Z.of_nat k + 1) :: rest; trace := seen |}
  = (inr (Some (Z.of_nat k)),
     {| stdin := rest;
        trace := seen ++ @selection_menu Text.builtins songs
                      ++ [Prompt select_prompt] |}) /\
  index songs (Z.of_nat k) = inr s.
Proof.
  intros E.
  assert (K : (k < List.length songs)%nat) by (apply nth_error_Some; congruence).
  split; [|split].
  - rewrite (@listing_nth Text.builtins songs 1 k s E).
    now replace (1 + Z.of_nat k) with (Z.of_nat k + 1) by lia.
  - assert (S : @selects Text.builtins songs (str_of_Z (Z.of_nat k + 1)) (Z.of_nat k + 1)).
    { split; [|lia].
      replace (Z.of_nat k + 1) with (Zpos (Pos.of_succ_nat k)) by lia.
      apply int_str_of_pos. }
    rewrite (@choose_song_interactive_eq Text.builtins) by (destruct songs; [destruct k|]; discriminate).
    cbn [stdin trace].
    rewrite (@choose_loop_picks Text.builtins songs _ rest _ S).
    replace (Z.of_nat k + 1 - 1) with (Z.of_nat k) by lia. reflexivity.
  - destruct (index_in_range songs (Z.of_nat k)) as (x & I & N); [lia|].
    rewrite Nat2Z.id, E in N. now injection N as <-.
Qed.

(** *** The further properties at concrete inputs *)

Lemma no_results_reported_witness :
  Text.strip "abc" <> "" /\
  @search_and_play Text.builtins unanswered "abc" 5 false false false (fresh ["1"])
  = (inr None,
     {| stdin := ["1"];
        trace := [CatalogOpen; CatalogSearch "abc" "songs"; Print "No results found."] |}).
Proof.
  assert (NE : Text.strip "abc" <> "") by discriminate.
  split; [exact NE|].
  exact (proj1 (@no_results_reported Text.builtins unanswered "abc" 5 false false false
                  (fresh ["1"])
                  {| stdin := ["1"]; trace := [CatalogOpen; CatalogSearch "abc" "songs"] |}
                  NE eq_refl)).
Defined.

Lemma cancelled_selection_reported_witness :
  Text.strip "abc" <> "" /\
  search_with_mock "abc" 3 <> [] /\
  fst (@search_and_play Text.builtins offline "abc" 3 true false false (fresh [" "; "2"]))
  = inr None /\
  stdin (snd (@search_and_play Text.builtins offline "abc" 3 true false false
                (fresh [" "; "2"])))
  = ["2"].
Proof.
  assert (NE : Text.strip "abc" <> "") by discriminate.
  assert (S : search_with_mock "abc" 3 <> []) by discriminate.
  split; [exact NE|]. split; [exact S|].
  assert (B : exists line rest, stdin (fresh [" "; "2"]) = line :: rest
                                /\ @blank Text.builtins line)
    by (exists " ", ["2"]; split; reflexivity).
  rewrite (@cancelled_selection_reported Text.builtins offline "abc" 3 true false
             (fresh [" "; "2"]) (fresh [" "; "2"]) (search_with_mock "abc" 3)
             NE eq_refl S (or_intror B)).
  split; reflexivity.
Defined.

Lemma search_with_ytmusic_any_limit_witness :
  YTMusic online = Some (inr three_item_catalog) /\
  @search_with_ytmusic Text.builtins online "b" (-1) (fresh [])
  = (inr [ {| title := PStr "B"; artist := PStr "Y";
              url := "https://www.youtube.com/watch?v=b" |} ],
     {| stdin := []; trace := [CatalogOpen; CatalogSearch "b" "songs"] |}).
Proof.
  split; [reflexivity|].
  exact (proj1 (@search_with_ytmusic_any_limit Text.builtins online "b" (-1) (fresh [])
                  three_item_catalog (Some three_items) eq_refl eq_refl)).
Defined.

Lemma provider_songs_presentable_witness :
  Forall (@presentable Text.builtins)
    [ {| title := PStr "B"; artist := PStr "Y";
         url := "https://www.youtube.com/watch?v=b" |};
      {| title := PStr "Unknown Title"; artist := PStr "Unknown Artist";
         url := "https://www.youtube.com/watch?v=c" |} ].
Proof.
  exact (@provider_songs_presentable Text.builtins online false "b" 3 (fresh [])
           {| stdin := []; trace := [CatalogOpen; CatalogSearch "b" "songs"] |}
           _ eq_refl).
Defined.

Lemma unreadable_artists_fail_search_witness :
  Text.strip "abc" <> "" /\
  @search_and_play Text.builtins unreadable "abc" 5 false false false (fresh ["1"])
  = (inr None,
     {| stdin := ["1"];
        trace := [CatalogOpen; CatalogSearch "abc" "songs";
                  Print "Error while searching: 'int' object is not subscriptable"] |}).
Proof.
  assert (NE : Text.strip "abc" <> "") by discriminate.
  split; [exact NE|].
  exact (proj1 (@unreadable_artists_fail_search Text.builtins unreadable "abc" 5 false
                  false (fresh ["1"]) (fun _ => inr (Some unreadable_items))
                  (Some unreadable_items)
                  [("title", PStr "B"); ("artists", PInt 5)]
                  NE eq_refl eq_refl eq_refl)).
Defined.

Lemma choose_song_by_length_witness :
  List.length (search_with_mock "a" 3) = List.length (search_with_mock "other" 3) /\
  fst (@choose_song Text.builtins (search_with_mock "a" 3) false (fresh ["9"; "2"]))
  = fst (@choose_song Text.builtins (search_with_mock "other" 3) false (fresh ["9"; "2"])).
Proof.
  split; [reflexivity|].
  exact (proj1 (@choose_song_by_length Text.builtins (search_with_mock "a" 3)
                  (search_with_mock "other" 3) false (fresh ["9"; "2"]) eq_refl)).
Defined.

Lemma mock_auto_session_witness :
  Text.strip "test" <> "" /\ 1 <= 5 /\
  fst (@search_and_play Text.builtins online "test" 5 true true false (fresh ["x"]))
  = inr (Some {| title := PStr "test (Mock 1)"; artist := PStr "Mock Artist 1";
                 url := "https://www.youtube.com/watch?v=mock1" |}).
Proof.
  assert (NE : Text.strip "test" <> "") by discriminate.
  assert (L : 1 <= 5) by lia.
  split; [exact NE|]. split; [exact L|].
  exact (proj1 (@mock_auto_session Text.builtins online "test" 5 false (fresh ["x"]) NE L)).
Defined.

Lemma main_whitespace_query_witness :
  "   " <> "" /\ Text.strip "   " = "" /\
  @main Text.builtins online
        {| arg_query := Some "   "; arg_mock := false; arg_limit := 5;
           arg_auto := false; arg_no_play := false |} (fresh ["1"])
  = (inr 0, {| stdin := ["1"]; trace := [Print "Empty query."] |}).
Proof.
  assert (NE : "   " <> "") by discriminate.
  split; [exact NE|]. split; [reflexivity|].
  exact (@main_whitespace_query Text.builtins online
           {| arg_query := Some "   "; arg_mock := false; arg_limit := 5;
              arg_auto := false; arg_no_play := false |} (fresh ["1"]) "   "
           eq_refl NE eq_refl).
Defined.

Lemma displayed_number_selects_witness :
  nth_error (search_with_mock "abc" 3) 1 = Some (mock_song "abc" 2) /\
  nth_error (@listing Text.builtins (search_with_mock "abc" 3) 1) 1
  = Some (Print "2. abc (Mock 2) - Mock Artist 2") /\
  fst (@choose_song Text.builtins (search_with_mock "abc" 3) false (fresh ["2"; "3"]))
  = inr (Some 1).
Proof.
  assert (E : nth_error (search_with_mock "abc" 3) 1 = Some (mock_song "abc" 2))
    by reflexivity.
  destruct (displayed_number_selects (search_with_mock "abc" 3) 1 (mock_song "abc" 2)
              ["3"] [] E) as (L & C & _).
  split; [exact E|]. split; [exact L|].
  change (fresh ["2"; "3"]) with {| stdin := str_of_Z (Z.of_nat 1 + 1) :: ["3"]; trace := [] |}.
  now rewrite C.
Defined.

Lemma search_with_mock_prefix_witness :
  3 <= 10 /\
  search_with_mock "abc" 3 = firstn 3 (search_with_mock "abc" 10) /\
  search_with_mock "abc" (-2) = [].
Proof.
  assert (L : 3 <= 10) by lia.
  split; [exact L|]. split.
  - exact (proj1 (search_with_mock_prefix "abc" 3 10) L).
  - exact (proj2 (search_with_mock_prefix "abc" (-2) 0) ltac:(lia)).
Defined.
